(** * A propositional-logic calculator: lexer, parser, evaluator, truth table

    Shallow embedding of [tokenizer.py], [syntax_tree.py],
    [logic_operators.py] and [logic_calculator.py].

    Conventions of the embedding.
    - Python values that flow through the evaluator are booleans and
      integers; they are kept apart ([PyBool] / [PyInt]) because the
      operator lambdas return [int(...)] while leaves return [bool].
    - An exception is a value of [exn]; a function that may raise returns
      an [outcome].  The recursive functions of the source that are not
      structurally recursive take a [fuel] argument; the top-level
      definitions supply enough of it and [OutOfFuel] is proved unreachable.
    - The token list that the parser mutates with [tokens.pop(0)] is
      threaded explicitly: every parsing function returns the node together
      with the tokens that are left.
    - Text is ASCII: [str.upper], [str.isspace] and [str.isalpha] are
      modelled on the code points 0..127 only, and a text with a code point
      of 128 or more is outside the model ([ascii_only] names the domain).
    - What [print] writes is collected as a list of lines; [main_turn] is
      one turn of the read loop of [main] on the line read; [parse_text] is
      the lexer followed by the parser, as [main] chains them. *)

From Stdlib Require Import ZArith Lia List String Ascii Bool DecimalString.
From stdpp Require Import base option list gmap strings sorting.
Import ListNotations.

Local Open Scope string_scope.
Local Open Scope Z_scope.

(** ** Values *)

(** The [value] attribute of a token or of a node: [str] or [bool]. *)
Inductive NodeValue : Type :=
  | NBool (b : bool)
  | NStr (s : string).

(** What the evaluator computes with: [bool] or [int]. *)
Inductive PyNum : Type :=
  | PyBool (b : bool)
  | PyInt (z : Z).

(** Python truthiness, as used by [not], [and], [or] and [if]. *)
Definition truthy (v : PyNum) : bool :=
  match v with
  | PyBool b => b
  | PyInt z => negb (z =? 0)
  end.

(** [int(v)]. *)
Definition py_int (v : PyNum) : Z :=
  match v with
  | PyBool true => 1
  | PyBool false => 0
  | PyInt z => z
  end.

(** [a == b] on booleans and integers compares numerically. *)
Definition py_eq (a b : PyNum) : bool := py_int a =? py_int b.

(** ** logic_operators.py *)

Inductive OpFunc : Type :=
  | Unary (f : PyNum -> PyNum)
  | Binary (f : PyNum -> PyNum -> PyNum).

(** [lambda a: int(not a)] *)
Definition op_not (a : PyNum) : PyNum :=
  PyInt (py_int (PyBool (negb (truthy a)))).
(** [lambda a, b: int(a and b)] *)
Definition op_and (a b : PyNum) : PyNum :=
  PyInt (py_int (if truthy a then b else a)).
(** [lambda a, b: int(a != b)] *)
Definition op_xor (a b : PyNum) : PyNum :=
  PyInt (py_int (PyBool (negb (py_eq a b)))).
(** [lambda a, b: int(a or b)] *)
Definition op_or (a b : PyNum) : PyNum :=
  PyInt (py_int (if truthy a then a else b)).
(** [lambda a, b: int(not a or b)] *)
Definition op_imp (a b : PyNum) : PyNum :=
  PyInt (py_int (if negb (truthy a) then PyBool true else b)).
(** [lambda a, b: int(a == b)] *)
Definition op_iff (a b : PyNum) : PyNum :=
  PyInt (py_int (PyBool (py_eq a b))).

(** The [operators] dict, in insertion order: symbol, precedence, function. *)
Definition operators : list (string * (Z * OpFunc)) :=
  [ ("NOT", (1, Unary op_not));
    ("AND", (2, Binary op_and));
    ("XOR", (3, Binary op_xor));
    ("OR",  (4, Binary op_or));
    ("IMP", (5, Binary op_imp));
    ("IFF", (6, Binary op_iff)) ].

(** [operators[key]] for a string key. *)
Fixpoint operators_get (table : list (string * (Z * OpFunc))) (key : string)
  : option (Z * OpFunc) :=
  match table with
  | [] => None
  | (k, entry) :: table' =>
      if String.eqb k key then Some entry else operators_get table' key
  end.

(** ** tokenizer.py *)

Inductive TokenType : Type := OPERATOR | OPERAND | PARENTHESIS.

Record Token : Type := mkToken {
  token_type : TokenType;
  value : NodeValue;
  precedence : option Z;
  associativity : option string;
  func : option OpFunc
}.

(** [Token(token_type, value)] with the three defaults [None]. *)
Definition Token2 (ty : TokenType) (v : NodeValue) : Token :=
  mkToken ty v None None None.

(** ** syntax_tree.py *)

Unset Elimination Schemes.
Inductive ASTNode : Type :=
  | mkAST (node_value : NodeValue) (left right : option ASTNode).
Set Elimination Schemes.

(** [ASTNode(value)], [ASTNode(value, left=l)], [ASTNode(value, left=l, right=r)] *)
Definition Leaf (v : NodeValue) : ASTNode := mkAST v None None.
Definition Node1 (v : NodeValue) (l : ASTNode) : ASTNode := mkAST v (Some l) None.
Definition Node2 (v : NodeValue) (l r : ASTNode) : ASTNode :=
  mkAST v (Some l) (Some r).

(** ** Exceptions and outcomes *)

Inductive exn : Type :=
  | IndexError                         (* pop from empty list *)
  | UnknownCharacter (c : ascii)       (* ValueError("Unknown character: " + c) *)
  | UnexpectedToken (t : Token)        (* ValueError("Unexpected token: " + str(t)) *)
  | KeyError (k : NodeValue)           (* operators[k] with k absent *)
  | TypeError                          (* wrong number of arguments, None >= int *)
  | AttributeError.                    (* None.left *)

Inductive outcome (A : Type) : Type :=
  | Ok (a : A)
  | Raise (e : exn)
  | OutOfFuel.
Arguments Ok {A} a.
Arguments Raise {A} e.
Arguments OutOfFuel {A}.

Definition bind {A B : Type} (m : outcome A) (k : A -> outcome B) : outcome B :=
  match m with
  | Ok a => k a
  | Raise e => Raise e
  | OutOfFuel => OutOfFuel
  end.

Notation "'do' x <- m ; k" := (bind m (fun x => k))
  (at level 10, x name, m at level 100, k at level 200).

(** ** logic_calculator.py: tokenize_expression *)

(** Characters are the code points below 128 (ASCII); the type [ascii] has
    room for 256 values, and the upper half stands for no character of the
    input.  A Python [str] may hold any code point: on a text with one of
    128 or more the three functions below do not follow [str.upper],
    [str.isspace] and [str.isalpha] (which take U+00E9 for a letter with
    upper case U+00C9, U+00A0 for white space, and turn U+00DF into two
    characters), so such a text is outside the model. *)

(** [c.upper()] for a code point below 128: the letters a-z go to A-Z, every
    other character stays. *)
Definition upper_char (c : ascii) : ascii :=
  let n := nat_of_ascii c in
  if ((97 <=? n) && (n <=? 122))%nat then ascii_of_nat (n - 32) else c.

Fixpoint upper (s : string) : string :=
  match s with
  | EmptyString => EmptyString
  | String c s' => String (upper_char c) (upper s')
  end.

(** [c.isspace()] for a code point below 128: TAB, LF, VT, FF, CR, FS, GS,
    RS, US and SPACE. *)
Definition isspace (c : ascii) : bool :=
  let n := nat_of_ascii c in
  (((9 <=? n) && (n <=? 13)) || ((28 <=? n) && (n <=? 32)))%nat.

(** [c.isalpha()] for a code point below 128: A-Z and a-z. *)
Definition isalpha (c : ascii) : bool :=
  let n := nat_of_ascii c in
  (((65 <=? n) && (n <=? 90)) || ((97 <=? n) && (n <=? 122)))%nat.

(** [s[n:]] *)
Fixpoint drop_chars (n : nat) (s : string) : string :=
  match n, s with
  | O, _ => s
  | S n', String _ s' => drop_chars n' s'
  | S _, EmptyString => EmptyString
  end.

(** The [for op in operators.keys()] loop: the first symbol that the rest of
    the input starts with, with its table entry. *)
Fixpoint match_operator (table : list (string * (Z * OpFunc))) (s : string)
  : option (string * (Z * OpFunc)) :=
  match table with
  | [] => None
  | (op, entry) :: table' =>
      if String.prefix op s then Some (op, entry) else match_operator table' s
  end.

Definition operator_token (op : string) (entry : Z * OpFunc) : Token :=
  mkToken OPERATOR (NStr op) (Some (fst entry))
          (Some (if String.eqb op "NOT" then "right" else "left"))
          (Some (snd entry)).

(** The [while index < len(expression)] loop; [s] is [expression[index:]]. *)
Fixpoint tokenize_loop (fuel : nat) (s : string) (tokens : list Token)
  : outcome (list Token) :=
  match s with
  | EmptyString => Ok tokens
  | String char _ =>
      match fuel with
      | O => OutOfFuel
      | S fuel' =>
          if isspace char then tokenize_loop fuel' (drop_chars 1 s) tokens
          else if Ascii.eqb char "("%char then
            tokenize_loop fuel' (drop_chars 1 s)
                          (tokens ++ [Token2 PARENTHESIS (NStr "(")])
          else if Ascii.eqb char ")"%char then
            tokenize_loop fuel' (drop_chars 1 s)
                          (tokens ++ [Token2 PARENTHESIS (NStr ")")])
          else if String.prefix "TRUE" s then
            tokenize_loop fuel' (drop_chars 4 s)
                          (tokens ++ [Token2 OPERAND (NBool true)])
          else if String.prefix "FALSE" s then
            tokenize_loop fuel' (drop_chars 5 s)
                          (tokens ++ [Token2 OPERAND (NBool false)])
          else
            match match_operator operators s with
            | Some (op, entry) =>
                tokenize_loop fuel' (drop_chars (String.length op) s)
                              (tokens ++ [operator_token op entry])
            | None =>
                if isalpha char then
                  tokenize_loop fuel' (drop_chars 1 s)
                                (tokens ++ [Token2 OPERAND (NStr (String char EmptyString))])
                else Raise (UnknownCharacter char)
            end
      end
  end.

Definition tokenize_expression (expression : string) : outcome (list Token) :=
  let expression := upper expression in
  tokenize_loop (String.length expression) expression [].

(** ** logic_calculator.py: build_ast *)

Definition TokenType_eqb (a b : TokenType) : bool :=
  match a, b with
  | OPERATOR, OPERATOR | OPERAND, OPERAND | PARENTHESIS, PARENTHESIS => true
  | _, _ => false
  end.

(** [v == s] for a string literal [s]. *)
Definition value_is (v : NodeValue) (s : string) : bool :=
  match v with
  | NStr s' => String.eqb s' s
  | NBool _ => false
  end.

(** [a == "left"] where [a] may be [None]. *)
Definition is_left (a : option string) : bool :=
  match a with
  | Some s => String.eqb s "left"
  | None => false
  end.

(** The closures [parse_primary] and [parse_operator] of [build_ast], and
    the [while] loop of [parse_operator] as [parse_loop].  The recursive
    call [build_ast(tokens)] inside [parse_primary] is [parse_operator 0] on
    the shared token list. *)
Fixpoint parse_primary (fuel : nat) (tokens : list Token)
  : outcome (ASTNode * list Token) :=
  match fuel with
  | O => OutOfFuel
  | S fuel' =>
      match tokens with
      | [] => Raise IndexError
      | token :: tokens =>
          if TokenType_eqb (token_type token) OPERAND then
            Ok (Leaf (value token), tokens)
          else if TokenType_eqb (token_type token) PARENTHESIS
                  && value_is (value token) "(" then
            match parse_operator fuel' 0 tokens with
            | Ok (node, tokens) =>
                match tokens with
                | t0 :: tokens' =>
                    if value_is (value t0) ")" then Ok (node, tokens')
                    else Ok (node, tokens)
                | [] => Ok (node, tokens)
                end
            | Raise e => Raise e
            | OutOfFuel => OutOfFuel
            end
          else if TokenType_eqb (token_type token) OPERATOR
                  && value_is (value token) "NOT" then
            match parse_primary fuel' tokens with
            | Ok (operand, tokens) => Ok (Node1 (value token) operand, tokens)
            | Raise e => Raise e
            | OutOfFuel => OutOfFuel
            end
          else Raise (UnexpectedToken token)
      end
  end
with parse_operator (fuel : nat) (precedence_level : Z) (tokens : list Token)
  : outcome (ASTNode * list Token) :=
  match fuel with
  | O => OutOfFuel
  | S fuel' =>
      match parse_primary fuel' tokens with
      | Ok (node, tokens) => parse_loop fuel' precedence_level node tokens
      | Raise e => Raise e
      | OutOfFuel => OutOfFuel
      end
  end
with parse_loop (fuel : nat) (precedence_level : Z) (node : ASTNode)
                (tokens : list Token)
  : outcome (ASTNode * list Token) :=
  match fuel with
  | O => OutOfFuel
  | S fuel' =>
      match tokens with
      | [] => Ok (node, tokens)
      | t0 :: tokens' =>
          if TokenType_eqb (token_type t0) OPERATOR then
            match precedence t0 with
            | None => Raise TypeError
            | Some p =>
                if p >=? precedence_level then
                  let token := t0 in
                  let next_precedence :=
                    if is_left (associativity token) then p + 1 else p in
                  match parse_operator fuel' next_precedence tokens' with
                  | Ok (right_node, tokens'') =>
                      parse_loop fuel' precedence_level
                                 (Node2 (value token) node right_node) tokens''
                  | Raise e => Raise e
                  | OutOfFuel => OutOfFuel
                  end
                else Ok (node, tokens)
            end
          else Ok (node, tokens)
      end
  end.

(** [build_ast(tokens)]: the root node, and what is left of [tokens]. *)
Definition build_ast (tokens : list Token) : outcome (ASTNode * list Token) :=
  parse_operator (2 * List.length tokens + 2) 0 tokens.

(** The value returned to the caller of [build_ast]. *)
Definition ast_of (r : outcome (ASTNode * list Token)) : outcome ASTNode :=
  match r with
  | Ok (node, _) => Ok node
  | Raise e => Raise e
  | OutOfFuel => OutOfFuel
  end.

(** ** logic_calculator.py: evaluate_tree *)

(** [operators[v][1](operand)] *)
Definition apply_unary (v : NodeValue) (operand : PyNum) : outcome PyNum :=
  match v with
  | NStr s =>
      match operators_get operators s with
      | Some (_, Unary f) => Ok (f operand)
      | Some (_, Binary _) => Raise TypeError
      | None => Raise (KeyError v)
      end
  | NBool _ => Raise (KeyError v)
  end.

(** [operators[v][1](left_value, right_value)] *)
Definition apply_binary (v : NodeValue) (left_value right_value : PyNum)
  : outcome PyNum :=
  match v with
  | NStr s =>
      match operators_get operators s with
      | Some (_, Binary f) => Ok (f left_value right_value)
      | Some (_, Unary _) => Raise TypeError
      | None => Raise (KeyError v)
      end
  | NBool _ => Raise (KeyError v)
  end.

(** [evaluate_tree(node, variable_values)]; the default [None] of the
    second argument is the empty dict. *)
Fixpoint evaluate_tree (node : ASTNode) (variable_values : gmap string bool)
  : outcome PyNum :=
  match node with
  | mkAST v None None =>
      match v with
      | NStr s => Ok (PyBool (default false (variable_values !! s)))
      | NBool b => Ok (PyBool b)
      end
  | mkAST v (Some l) None =>
      do operand <- evaluate_tree l variable_values;
      apply_unary v operand
  | mkAST v None (Some _) => Raise AttributeError
  | mkAST v (Some l) (Some r) =>
      do left_value <- evaluate_tree l variable_values;
      do right_value <- evaluate_tree r variable_values;
      apply_binary v left_value right_value
  end.

(** ** logic_calculator.py: generate_truth_combinations, generate_truth_table *)

(** [range(n)] as integers. *)
Definition range (n : nat) : list Z := map Z.of_nat (seq 0 n).

Definition generate_truth_combinations (n : nat) : list (list Z) :=
  map (fun i => rev (map (fun j => Z.land (Z.shiftr i j) 1) (range n)))
      (range (2 ^ n)).

(** A row of the table: a list, or a dict when [return_as_dict]. *)
Inductive Row : Type :=
  | RowList (values : list Z)
  | RowDict (entries : gmap string Z).

(** [{var: f(val) for var, val in zip(variables, combination)}] *)
Definition dict_of_zip {A : Type} (f : Z -> A) (variables : list string)
           (combination : list Z) : gmap string A :=
  fold_left (fun d '(var, val) => <[var := f val]> d)
            (combine variables combination) ∅.

(** [bool(val)] *)
Definition int_bool (val : Z) : bool := negb (val =? 0).

(** The body of the [for combination in combinations] loop. *)
Definition table_row (ast : ASTNode) (variables : list string)
           (return_as_dict : bool) (combination : list Z) : outcome Row :=
  let variable_values := dict_of_zip int_bool variables combination in
  do result <- evaluate_tree ast variable_values;
  let result_val := if truthy result then 1 else 0 in
  if return_as_dict then
    Ok (RowDict (<["RESULT" := result_val]> (dict_of_zip id variables combination)))
  else
    Ok (RowList (combination ++ [result_val])).

Fixpoint table_loop (ast : ASTNode) (variables : list string)
         (return_as_dict : bool) (combinations : list (list Z))
         (table : list Row) : outcome (list Row) :=
  match combinations with
  | [] => Ok table
  | combination :: combinations' =>
      do row <- table_row ast variables return_as_dict combination;
      table_loop ast variables return_as_dict combinations' (table ++ [row])
  end.

Definition generate_truth_table (ast : ASTNode) (variables : list string)
           (return_as_dict : bool) : outcome (list Row) :=
  let combinations := generate_truth_combinations (List.length variables) in
  table_loop ast variables return_as_dict combinations [].

(** [tokenize_expression] followed by [build_ast], as in [main]. *)
Definition parse_text (s : string) : outcome ASTNode :=
  do tokens <- tokenize_expression s; ast_of (build_ast tokens).

(** ** logic_calculator.py: extract_logical_variables *)

(** [extract_logical_variables(node, variables)]: the set is mutated in
    place and returned; the default [None] of the second argument is a new
    empty set.  [if node.left:] tests for [None]: an [ASTNode] has no
    [__bool__] or [__len__]. *)
Fixpoint extract_logical_variables (node : ASTNode) (variables : gset string)
  : gset string :=
  match node with
  | mkAST v l r =>
      let variables :=
        match l, r, v with
        | None, None, NStr s => {[ s ]} ∪ variables
        | _, _, _ => variables
        end in
      let variables :=
        match l with
        | Some l' => extract_logical_variables l' variables
        | None => variables
        end in
      match r with
      | Some r' => extract_logical_variables r' variables
      | None => variables
      end
  end.

(** ** syntax_tree.py: ASTNode.__repr__ *)

(** [str(self.value)] *)
Definition str_value (v : NodeValue) : string :=
  match v with
  | NBool true => "True"
  | NBool false => "False"
  | NStr s => s
  end.

(** [ASTNode.__repr__]; [str] of a child is its [__repr__], and a child is
    truthy when it is not [None]. *)
Fixpoint ASTNode_repr (t : ASTNode) : string :=
  match t with
  | mkAST v (Some l) (Some r) =>
      "(" +:+ ASTNode_repr l +:+ " " +:+ str_value v +:+ " " +:+ ASTNode_repr r +:+ ")"
  | mkAST v (Some l) None =>
      "(" +:+ str_value v +:+ " " +:+ ASTNode_repr l +:+ ")"
  | mkAST v None _ => str_value v
  end.

(** ** logic_calculator.py: printing the table, and one turn of main *)

(** [str(z)] for an integer. *)
Definition str_int (z : Z) : string := NilZero.string_of_int (Z.to_int z).

(** [sep.join(parts)] *)
Fixpoint join (sep : string) (parts : list string) : string :=
  match parts with
  | [] => ""
  | [x] => x
  | x :: parts' => x +:+ sep +:+ join sep parts'
  end.

(** ['-' * n] *)
Fixpoint dashes (n : nat) : string :=
  match n with
  | O => ""
  | S n' => String "-" (dashes n')
  end.

(** [generate_truth_table] with [print_table=True], its default: the lines
    written by [print] so far, and the result.  The two header lines are
    written before the first row is evaluated, and a row's line after the
    row is appended; an exception leaves the lines written before it. *)
Fixpoint print_loop (ast : ASTNode) (variables : list string)
         (return_as_dict : bool) (combinations : list (list Z))
         (table : list Row) (printed : list string)
  : list string * outcome (list Row) :=
  match combinations with
  | [] => (printed, Ok table)
  | combination :: combinations' =>
      let variable_values := dict_of_zip int_bool variables combination in
      match evaluate_tree ast variable_values with
      | Ok result =>
          let result_val := if truthy result then 1 else 0 in
          let row :=
            if return_as_dict then
              RowDict (<["RESULT" := result_val]> (dict_of_zip id variables combination))
            else RowList (combination ++ [result_val]) in
          let combination_str := join " | " (map str_int combination) in
          print_loop ast variables return_as_dict combinations'
                     (table ++ [row])
                     (printed ++ [combination_str +:+ " | " +:+ str_int result_val])
      | Raise e => (printed, Raise e)
      | OutOfFuel => (printed, OutOfFuel)
      end
  end.

Definition generate_truth_table_print (ast : ASTNode) (variables : list string)
           (return_as_dict : bool) : list string * outcome (list Row) :=
  let combinations := generate_truth_combinations (List.length variables) in
  print_loop ast variables return_as_dict combinations []
             [ join " | " variables +:+ " | RESULT";
               dashes (4 * List.length variables + 9) ].

(** [s.strip()]: white space removed at both ends. *)
Fixpoint lstrip (s : string) : string :=
  match s with
  | EmptyString => EmptyString
  | String c s' => if isspace c then lstrip s' else s
  end.

Fixpoint rstrip (s : string) : string :=
  match s with
  | EmptyString => EmptyString
  | String c s' =>
      match rstrip s' with
      | EmptyString => if isspace c then EmptyString else String c EmptyString
      | r => String c r
      end
  end.

Definition strip (s : string) : string := rstrip (lstrip s).

(** The order of [sorted] on strings: by code point, a proper prefix first. *)
Definition string_le (x y : string) : Prop := String.leb x y = true.

#[global] Instance string_le_dec x y : Decision (string_le x y).
Proof. unfold string_le. apply _. Defined.

(** [sorted(variables)] for a set of strings. *)
Definition sorted (variables : gset string) : list string :=
  merge_sort string_le (elements variables).

(** A line written by [print].  The line ["Err: " + str(e)] is kept as the
    exception [e]. *)
Inductive output : Type :=
  | Line (text : string)
  | ErrLine (e : exn).

(** ["Result: " + result]: [result] is a [bool] or an [int], and [str + bool]
    and [str + int] raise [TypeError]. *)
Definition concat_result (prefix : string) (result : PyNum) : outcome string :=
  Raise TypeError.

(** The body of the [try] statement of [main] together with its [except]
    clause: the lines written for an expression.  ([OutOfFuel] is not a
    result of the lexer or of the parser; it writes nothing.) *)
Definition try_block (expression : string) : list output :=
  match tokenize_expression expression with
  | Ok tokens =>
      match build_ast tokens with
      | Ok (ast, _) =>
          let variables := sorted (extract_logical_variables ast ∅) in
          match variables with
          | _ :: _ =>
              let '(printed, table) :=
                generate_truth_table_print ast variables false in
              (map Line printed
               ++ match table with
                  | Ok _ => []
                  | Raise e => [ErrLine e]
                  | OutOfFuel => []
                  end)%list
          | [] =>
              match evaluate_tree ast ∅ with
              | Ok result =>
                  match concat_result "Result: " result with
                  | Ok text => [Line text]
                  | Raise e => [ErrLine e]
                  | OutOfFuel => []
                  end
              | Raise e => [ErrLine e]
              | OutOfFuel => []
              end
          end
      | Raise e => [ErrLine e]
      | OutOfFuel => []
      end
  | Raise e => [ErrLine e]
  | OutOfFuel => []
  end.

(** One turn of the [while True] loop of [main] on the line that [input]
    returns: [None] for [break], otherwise the lines written. *)
Definition main_turn (line : string) : option (list output) :=
  let expression := upper (strip line) in
  if bool_decide (expression ∈ ["Q"; "X"; "QUIT"; "EXIT"]) then None
  else if bool_decide (expression ∈ ["H"; "HELP"]) then
    Some [Line "NOT; AND; OR; XOR; IMP; IFF;"]
  else Some (try_block expression).

(** * Vocabulary of the statements *)

Local Open Scope list_scope.

(** ** Tokens and trees of the examples *)

Definition var_token (c : ascii) : Token :=
  Token2 OPERAND (NStr (String c EmptyString)).
Definition Var (name : string) : ASTNode := Leaf (NStr name).
Definition Const (b : bool) : ASTNode := Leaf (NBool b).
Definition BinOp (op : string) (l r : ASTNode) : ASTNode := Node2 (NStr op) l r.
Definition Not (l : ASTNode) : ASTNode := Node1 (NStr "NOT") l.

(** ** Malformed input *)

(** A token that neither continues an expression nor closes a group: not an
    operator, and its value is not [")"]. *)
Definition inert_head (extra : list Token) : bool :=
  match extra with
  | [] => true
  | t :: _ =>
      negb (TokenType_eqb (token_type t) OPERATOR) && negb (value_is (value t) ")")
  end.

(** A token that [parse_primary] rejects. *)
Definition cannot_start (t : Token) : bool :=
  negb (TokenType_eqb (token_type t) OPERAND)
  && negb (TokenType_eqb (token_type t) PARENTHESIS && value_is (value t) "(")
  && negb (TokenType_eqb (token_type t) OPERATOR && value_is (value t) "NOT").

(** [token] opens a group: the second test of [parse_primary]. *)
Definition is_open (t : Token) : bool :=
  TokenType_eqb (token_type t) PARENTHESIS && value_is (value t) "(".

(** [token] is a NOT: the third test of [parse_primary]. *)
Definition is_prefix_not (t : Token) : bool :=
  TokenType_eqb (token_type t) OPERATOR && value_is (value t) "NOT".

(** The operand that is required at the head of [tokens] is missing: after
    any opening parentheses and NOTs, which each require an operand in
    turn, the tokens run out, or the next token cannot start an operand.
    The result is the exception that this raises. *)
Fixpoint missing_operand (tokens : list Token) : option exn :=
  match tokens with
  | [] => Some IndexError
  | t :: rest =>
      if TokenType_eqb (token_type t) OPERAND then None
      else if is_open t then missing_operand rest
      else if is_prefix_not t then missing_operand rest
      else Some (UnexpectedToken t)
  end.

(** ** Unterminated groups *)

(** [k] closing parentheses, as the lexer emits them. *)
Definition closing (k : nat) : list Token :=
  repeat (Token2 PARENTHESIS (NStr ")")) k.


(** ** Chains of one binary operator *)

(** [x1 op x2 op ... op xn] after the first operand: the tokens
    [op x1 op x2 ... op xn]. *)
Definition chain (op : Token) (operands : list Token) : list Token :=
  flat_map (fun x => [op; x]) operands.

(** The tree that groups a chain to the left. *)
Definition left_nested (op : Token) (first : ASTNode) (operands : list Token)
  : ASTNode :=
  fold_left (fun acc x => Node2 (value op) acc (Leaf (value x))) operands first.

(** ** What the lexer emits, what the parser builds *)

(** [s] is a key of the operator table. *)
Definition is_keyword (s : string) : bool :=
  match operators_get operators s with
  | Some _ => true
  | None => false
  end.

(** A single alphabetic character. *)
Definition is_letter_name (s : string) : bool :=
  match s with
  | String c EmptyString => isalpha c
  | _ => false
  end.

(** The tokens that [tokenize_expression] can emit. *)
Definition lexer_token (t : Token) : bool :=
  match token_type t, value t with
  | OPERAND, NBool _ => true
  | OPERAND, NStr s => is_letter_name s
  | PARENTHESIS, NStr s => String.eqb s "(" || String.eqb s ")"
  | OPERATOR, NStr s =>
      is_keyword s
      && match precedence t with Some _ => true | None => false end
  | _, _ => false
  end.

(** The three shapes of a node, in the whole tree. *)
Fixpoint three_shapes (t : ASTNode) : bool :=
  match t with
  | mkAST v None None =>
      match v with
      | NBool _ => true
      | NStr s => is_letter_name s
      end
  | mkAST v (Some l) None => value_is v "NOT" && three_shapes l
  | mkAST v (Some l) (Some r) =>
      match v with
      | NStr s => is_keyword s
      | NBool _ => false
      end && three_shapes l && three_shapes r
  | mkAST _ None (Some _) => false
  end.

(** Every node that has a child carries a key of the operator table. *)
Fixpoint inner_values_known (t : ASTNode) : bool :=
  match t with
  | mkAST _ None None => true
  | mkAST v l r =>
      match v with
      | NStr s => is_keyword s
      | NBool _ => false
      end
      && match l with Some l' => inner_values_known l' | None => true end
      && match r with Some r' => inner_values_known r' | None => true end
  end.

(** ** Evaluation *)

Definition is_binary_operator (v : NodeValue) : bool :=
  match v with
  | NStr s =>
      match operators_get operators s with
      | Some (_, Binary _) => true
      | _ => false
      end
  | NBool _ => false
  end.

(** The trees of the data model: a leaf, ["NOT"] over one child, a binary
    operator over two. *)
Fixpoint well_formed (t : ASTNode) : bool :=
  match t with
  | mkAST _ None None => true
  | mkAST v (Some l) None => value_is v "NOT" && well_formed l
  | mkAST v (Some l) (Some r) => is_binary_operator v && well_formed l && well_formed r
  | mkAST _ None (Some _) => false
  end.

(** No node with two children is labelled ["NOT"]. *)
Fixpoint no_infix_not (t : ASTNode) : bool :=
  match t with
  | mkAST v l r =>
      negb (value_is v "NOT"
            && match l, r with Some _, Some _ => true | _, _ => false end)
      && match l with Some l' => no_infix_not l' | None => true end
      && match r with Some r' => no_infix_not r' | None => true end
  end.

(** The connectives of propositional logic, by keyword. *)
Definition connective (op : string) : bool -> bool -> bool :=
  if String.eqb op "AND" then andb
  else if String.eqb op "XOR" then xorb
  else if String.eqb op "OR" then orb
  else if String.eqb op "IMP" then implb
  else if String.eqb op "IFF" then Bool.eqb
  else fun _ _ => false.

(** The truth value of a tree in propositional logic; a variable without a
    value counts as false. *)
Fixpoint standard_value (variable_values : gmap string bool) (t : ASTNode) : bool :=
  match t with
  | mkAST (NBool b) None None => b
  | mkAST (NStr x) None None => default false (variable_values !! x)
  | mkAST _ (Some l) None => negb (standard_value variable_values l)
  | mkAST (NStr op) (Some l) (Some r) =>
      connective op (standard_value variable_values l)
                    (standard_value variable_values r)
  | _ => false
  end.

(** The Python value [v] is the truth value [b]: [True]/[False] or 1/0. *)
Definition is_truth_value (v : PyNum) (b : bool) : Prop :=
  v = PyBool b \/ v = PyInt (Z.b2z b).

(** ** The truth table *)

(** [1 if result else 0] *)
Definition result_val (result : PyNum) : Z := if truthy result then 1 else 0.

(** The row built for one combination and one rendered result. *)
Definition make_row (return_as_dict : bool) (variables : list string)
           (combination : list Z) (r : Z) : Row :=
  if return_as_dict then
    RowDict (<["RESULT" := r]> (dict_of_zip id variables combination))
  else RowList (combination ++ [r]).

(** *** Binary counting *)

(** A combination read as a binary number, first element most significant. *)
Definition big_endian (combination : list Z) : Z :=
  fold_left (fun acc b => 2 * acc + b) combination 0.

(** The same with the first element least significant. *)
Definition little_endian (bits : list Z) : Z :=
  fold_right (fun b acc => b + 2 * acc) 0 bits.

Definition is_bit (b : Z) : Prop := b = 0 \/ b = 1.

(** The inner loop of [generate_truth_combinations], before the reversal. *)
Definition bits_of (n : nat) (i : Z) : list Z :=
  map (fun j => Z.land (Z.shiftr i j) 1) (range n).

(** The combination built for the counter value [i]. *)
Definition combination_of (n : nat) (i : Z) : list Z := rev (bits_of n i).

(** ** The lexer: one step, fuel, accumulation *)

(** What one pass through the body of the [while] loop does: skip [n]
    characters, emit a token and skip [n] characters, or raise. *)
Inductive step : Type :=
  | Skip (n : nat)
  | Emit (t : Token) (n : nat)
  | Bad (c : ascii).

Definition scan_step (s : string) : step :=
  match s with
  | EmptyString => Skip 0
  | String char _ =>
      if isspace char then Skip 1
      else if Ascii.eqb char "("%char then Emit (Token2 PARENTHESIS (NStr "(")) 1
      else if Ascii.eqb char ")"%char then Emit (Token2 PARENTHESIS (NStr ")")) 1
      else if String.prefix "TRUE" s then Emit (Token2 OPERAND (NBool true)) 4
      else if String.prefix "FALSE" s then Emit (Token2 OPERAND (NBool false)) 5
      else
        match match_operator operators s with
        | Some (op, entry) => Emit (operator_token op entry) (String.length op)
        | None => if isalpha char then Emit (var_token char) 1 else Bad char
        end
  end.

(** ** Runs of letters *)

(** [TRUE], [FALSE] or an operator keyword starts at the head of [s]. *)
Definition keyword_at (s : string) : bool :=
  String.prefix "TRUE" s || String.prefix "FALSE" s
  || match match_operator operators s with Some _ => true | None => false end.

(** No keyword starts at any position of the run [w], which is followed by
    [rest]. *)
Fixpoint no_keyword_in (w rest : string) : bool :=
  match w with
  | EmptyString => true
  | String _ w' => negb (keyword_at (w +:+ rest)) && no_keyword_in w' rest
  end.

Fixpoint all_alpha (w : string) : bool :=
  match w with
  | EmptyString => true
  | String c w' => isalpha c && all_alpha w'
  end.

(** [s] is empty or its last character is not a letter. *)
Fixpoint ends_nonalpha (s : string) : bool :=
  match s with
  | EmptyString => true
  | String c EmptyString => negb (isalpha c)
  | String _ s' => ends_nonalpha s'
  end.

(** [s] is empty or its first character is not a letter. *)
Definition starts_nonalpha (s : string) : bool :=
  match s with
  | EmptyString => true
  | String c _ => negb (isalpha c)
  end.

(** One variable token per character. *)
Definition variables_of (w : string) : list Token :=
  map var_token (list_ascii_of_string w).

(** ** Variables *)

(** The names held by the operand tokens of a list. *)
Fixpoint token_variables (tokens : list Token) : gset string :=
  match tokens with
  | [] => ∅
  | t :: tokens' =>
      match token_type t, value t with
      | OPERAND, NStr s => {[ s ]} ∪ token_variables tokens'
      | _, _ => token_variables tokens'
      end
  end.

(** ** Characters the lexer accepts *)

(** Every character of [s] is a code point below 128. *)
Fixpoint ascii_only (s : string) : bool :=
  match s with
  | EmptyString => true
  | String c s' => (nat_of_ascii c <? 128)%nat && ascii_only s'
  end.

(** White space, a parenthesis or a letter. *)
Definition lexable (c : ascii) : bool :=
  isspace c || Ascii.eqb c "("%char || Ascii.eqb c ")"%char || isalpha c.

(** The first character of [s] that is none of these. *)
Fixpoint first_unlexable (s : string) : option ascii :=
  match s with
  | EmptyString => None
  | String c s' => if lexable c then first_unlexable s' else Some c
  end.

Fixpoint all_space (s : string) : bool :=
  match s with
  | EmptyString => true
  | String c s' => isspace c && all_space s'
  end.

(** ** Parentheses and prefix NOT *)

Definition LP : Token := Token2 PARENTHESIS (NStr "(").
Definition RP : Token := Token2 PARENTHESIS (NStr ")").

(** The NOT token of the lexer, [k] times. *)
Definition nots (k : nat) : list Token :=
  repeat (operator_token "NOT" (1, Unary op_not)) k.

(** [k] nested NOT nodes over [t]. *)
Fixpoint negations (k : nat) (t : ASTNode) : ASTNode :=
  match k with
  | O => t
  | S k' => Not (negations k' t)
  end.

(** The exceptions of [build_ast] on lexed input. *)
Definition parse_error (tokens : list Token) (e : exn) : Prop :=
  e = IndexError
  \/ exists t, e = UnexpectedToken t /\ In t tokens /\ cannot_start t = true.

(** A successful result [r] on an input and the result [r'] on the input
    followed by [k] closing parentheses: same tree, and at most [k] of the
    parentheses are left. *)
Definition closes_within (k : nat) (r r' : outcome (ASTNode * list Token)) : Prop :=
  match r with
  | Ok (node, rest) =>
      exists j, (j <= k)%nat /\ r' = Ok (node, rest ++ closing j)
  | _ => True
  end.

(** ** Printing and reading back *)

(** One upper-case letter. *)
Definition is_upper_name (s : string) : bool :=
  match s with
  | String c EmptyString => isalpha c && Ascii.eqb (upper_char c) c
  | _ => false
  end.

(** The trees whose printed form the lexer and the parser read back: the
    three shapes, with upper-case letters as variable names. *)
Fixpoint printable (t : ASTNode) : bool :=
  match t with
  | mkAST v None None =>
      match v with
      | NBool _ => true
      | NStr s => is_upper_name s
      end
  | mkAST v (Some l) None => value_is v "NOT" && printable l
  | mkAST v (Some l) (Some r) =>
      match v with
      | NStr s => is_keyword s
      | NBool _ => false
      end && printable l && printable r
  | mkAST _ None (Some _) => false
  end.

(** The operator token that the lexer emits for a keyword. *)
Definition keyword_token (v : NodeValue) : list Token :=
  match v with
  | NStr s =>
      match operators_get operators s with
      | Some entry => [operator_token s entry]
      | None => []
      end
  | NBool _ => []
  end.

(** The tokens of the printed form of a tree. *)
Fixpoint tokens_of (t : ASTNode) : list Token :=
  match t with
  | mkAST v (Some l) (Some r) =>
      [LP] ++ tokens_of l ++ keyword_token v ++ tokens_of r ++ [RP]
  | mkAST v (Some l) None => [LP] ++ keyword_token v ++ tokens_of l ++ [RP]
  | mkAST v None _ => [Token2 OPERAND v]
  end.

(** The text that follows a printed subtree does not start with a letter. *)
Definition boundary (rest : string) : bool :=
  match rest with
  | EmptyString => true
  | String d _ => negb (isalpha d)
  end.

(** The lexer loop with the fuel that [tokenize_expression] gives it. *)
Definition lex (s : string) (tokens : list Token) : outcome (list Token) :=
  tokenize_loop (String.length s) s tokens.

Fixpoint height (t : ASTNode) : nat :=
  match t with
  | mkAST _ l r =>
      S (Nat.max (match l with Some l' => height l' | None => 0 end)
                 (match r with Some r' => height r' | None => 0 end))
  end.

(** No lower-case letter in [s]. *)
Fixpoint no_lower (s : string) : bool :=
  match s with
  | EmptyString => true
  | String c s' => Ascii.eqb (upper_char c) c && no_lower s'
  end.

(** An operand token that holds a name holds one upper-case letter. *)
Definition upper_operand (t : Token) : bool :=
  match token_type t, value t with
  | OPERAND, NStr s => is_upper_name s
  | _, _ => true
  end.

(** ** Printed lines *)

(** The text of a list row: its values separated by [" | "]. *)
Definition row_text (row : Row) : string :=
  match row with
  | RowList values => join " | " (map str_int values)
  | RowDict _ => ""
  end.

(** The two lines printed before the rows. *)
Definition table_header (variables : list string) : list string :=
  [ join " | " variables +:+ " | RESULT";
    dashes (4 * List.length variables + 9) ].

(** * Properties *)

(** ** Induction on trees *)

Lemma ASTNode_nested_ind (P : ASTNode -> Prop) :
  (forall v, P (mkAST v None None)) ->
  (forall v l, P l -> P (mkAST v (Some l) None)) ->
  (forall v r, P r -> P (mkAST v None (Some r))) ->
  (forall v l r, P l -> P r -> P (mkAST v (Some l) (Some r))) ->
  forall t, P t.
Proof.
  intros Hleaf Hleft Hright Hboth.
  fix IH 1. intros [v [l|] [r|]].
  - apply Hboth; apply IH.
  - apply Hleft; apply IH.
  - apply Hright; apply IH.
  - apply Hleaf.
Qed.

(** ** The parser: fuel and token consumption *)

Lemma parse_primary_S fuel tokens :
  parse_primary (S fuel) tokens =
  match tokens with
  | [] => Raise IndexError
  | token :: tokens =>
      if TokenType_eqb (token_type token) OPERAND then
        Ok (Leaf (value token), tokens)
      else if TokenType_eqb (token_type token) PARENTHESIS
              && value_is (value token) "(" then
        match parse_operator fuel 0 tokens with
        | Ok (node, tokens) =>
            match tokens with
            | t0 :: tokens' =>
                if value_is (value t0) ")" then Ok (node, tokens')
                else Ok (node, tokens)
            | [] => Ok (node, tokens)
            end
        | Raise e => Raise e
        | OutOfFuel => OutOfFuel
        end
      else if TokenType_eqb (token_type token) OPERATOR
              && value_is (value token) "NOT" then
        match parse_primary fuel tokens with
        | Ok (operand, tokens) => Ok (Node1 (value token) operand, tokens)
        | Raise e => Raise e
        | OutOfFuel => OutOfFuel
        end
      else Raise (UnexpectedToken token)
  end.
Proof. reflexivity. Qed.

Lemma parse_operator_S fuel level tokens :
  parse_operator (S fuel) level tokens =
  match parse_primary fuel tokens with
  | Ok (node, tokens) => parse_loop fuel level node tokens
  | Raise e => Raise e
  | OutOfFuel => OutOfFuel
  end.
Proof. reflexivity. Qed.

Lemma parse_loop_S fuel level node tokens :
  parse_loop (S fuel) level node tokens =
  match tokens with
  | [] => Ok (node, tokens)
  | t0 :: tokens' =>
      if TokenType_eqb (token_type t0) OPERATOR then
        match precedence t0 with
        | None => Raise TypeError
        | Some p =>
            if p >=? level then
              match parse_operator fuel
                      (if is_left (associativity t0) then p + 1 else p)
                      tokens' with
              | Ok (right_node, tokens'') =>
                  parse_loop fuel level (Node2 (value t0) node right_node) tokens''
              | Raise e => Raise e
              | OutOfFuel => OutOfFuel
              end
            else Ok (node, tokens)
        end
      else Ok (node, tokens)
  end.
Proof. reflexivity. Qed.

Ltac parse_unfold :=
  rewrite ?parse_primary_S, ?parse_operator_S, ?parse_loop_S in *.

(** Case analysis on the scrutinee of the innermost [match] or [if] of the
    goal or of a hypothesis. *)
Ltac break_match :=
  match goal with
  | |- context [match ?x with _ => _ end] =>
      lazymatch x with
      | context [match _ with _ => _ end] => fail
      | _ => destruct x eqn:?
      end
  | H : context [match ?x with _ => _ end] |- _ =>
      lazymatch x with
      | context [match _ with _ => _ end] => fail
      | _ => destruct x eqn:?
      end
  end.

(** A successful parse leaves a suffix that is no longer than its input;
    [parse_primary] and [parse_operator] consume at least one token. *)
Lemma parse_consumes fuel :
  (forall tokens node rest,
      parse_primary fuel tokens = Ok (node, rest) ->
      (List.length rest < List.length tokens)%nat) /\
  (forall level tokens node rest,
      parse_operator fuel level tokens = Ok (node, rest) ->
      (List.length rest < List.length tokens)%nat) /\
  (forall level node0 tokens node rest,
      parse_loop fuel level node0 tokens = Ok (node, rest) ->
      (List.length rest <= List.length tokens)%nat).
Proof.
  induction fuel as [|fuel (IHp & IHo & IHl)]; [repeat split; intros; discriminate|].
  repeat split; intros until rest; parse_unfold; intros H;
    repeat break_match; simplify_eq;
    repeat match goal with
      | H : parse_primary fuel _ = Ok _ |- _ => apply IHp in H
      | H : parse_operator fuel _ _ = Ok _ |- _ => apply IHo in H
      | H : parse_loop fuel _ _ _ = Ok _ |- _ => apply IHl in H
      end; simpl in *; lia.
Qed.

(** More fuel does not change a result. *)
Lemma parse_fuel_mono fuel :
  (forall tokens r,
      parse_primary fuel tokens = r -> r <> OutOfFuel ->
      forall fuel', (fuel <= fuel')%nat -> parse_primary fuel' tokens = r) /\
  (forall level tokens r,
      parse_operator fuel level tokens = r -> r <> OutOfFuel ->
      forall fuel', (fuel <= fuel')%nat -> parse_operator fuel' level tokens = r) /\
  (forall level node0 tokens r,
      parse_loop fuel level node0 tokens = r -> r <> OutOfFuel ->
      forall fuel', (fuel <= fuel')%nat -> parse_loop fuel' level node0 tokens = r).
Proof.
  induction fuel as [|fuel (IHp & IHo & IHl)];
    [repeat split; intros; simpl in *; congruence|].
  repeat split; intros until r; intros H Hr [|fuel'] Hle; try lia;
    assert (Hle' : (fuel <= fuel')%nat) by lia;
    parse_unfold; subst r;
    repeat break_match; simplify_eq; try congruence;
    repeat match goal with
      | H : parse_primary fuel ?t = ?r |- _ =>
          apply IHp with (fuel' := fuel') in H; [|congruence|exact Hle']
      | H : parse_operator fuel ?l ?t = ?r |- _ =>
          apply IHo with (fuel' := fuel') in H; [|congruence|exact Hle']
      end;
    repeat match goal with
      | H1 : ?x = _, H2 : ?x = _ |- _ => rewrite H1 in H2
      end; simplify_eq; try congruence;
    try (eapply IHl; eauto).
Qed.

(** With [2 * length tokens] units of fuel and one or two to spare, no
    parsing function runs out. *)
Lemma parse_fuel_enough fuel :
  (forall tokens,
      (2 * List.length tokens + 1 <= fuel)%nat ->
      parse_primary fuel tokens <> OutOfFuel) /\
  (forall level tokens,
      (2 * List.length tokens + 2 <= fuel)%nat ->
      parse_operator fuel level tokens <> OutOfFuel) /\
  (forall level node0 tokens,
      (2 * List.length tokens + 1 <= fuel)%nat ->
      parse_loop fuel level node0 tokens <> OutOfFuel).
Proof.
  induction fuel as [|fuel (IHp & IHo & IHl)]; [repeat split; intros; lia|].
  pose proof (parse_consumes fuel) as (Cp & Co & Cl).
  repeat split; intros until tokens; intros Hf; parse_unfold;
    repeat break_match; simplify_eq; simpl in *; try congruence;
    repeat match goal with
      | H : parse_primary fuel _ = Ok _ |- _ => apply Cp in H
      | H : parse_operator fuel _ _ = Ok _ |- _ => apply Co in H
      | H : parse_primary fuel ?t = OutOfFuel |- _ => apply (IHp t) in H; [tauto|lia]
      | H : parse_operator fuel ?l ?t = OutOfFuel |- _ => apply (IHo l t) in H; [tauto|lia]
      end; simpl in *;
    try (apply IHl; lia); try tauto.
Qed.

Lemma build_ast_terminates tokens : build_ast tokens <> OutOfFuel.
Proof. apply parse_fuel_enough. lia. Qed.

Lemma build_ast_fuel fuel tokens :
  (2 * List.length tokens + 2 <= fuel)%nat ->
  parse_operator fuel 0 tokens = build_ast tokens.
Proof.
  intros Hf. eapply (parse_fuel_mono _); [reflexivity | apply build_ast_terminates | exact Hf].
Qed.

(** ** Precedence *)

(** C1 (the code at the claim's own example).  ["A AND B OR C"] is parsed
    with OR below AND: the tree is (A AND (B OR C)), not ((A AND B) OR C).
    The two trees differ in value at A = false, B = false, C = true. *)
Theorem and_or_grouping :
  parse_text "A AND B OR C"
    = Ok (BinOp "AND" (Var "A") (BinOp "OR" (Var "B") (Var "C")))
  /\ evaluate_tree (BinOp "AND" (Var "A") (BinOp "OR" (Var "B") (Var "C")))
                   {[ "C" := true ]} = Ok (PyInt 0)
  /\ evaluate_tree (BinOp "OR" (BinOp "AND" (Var "A") (Var "B")) (Var "C"))
                   {[ "C" := true ]} = Ok (PyInt 1).
Proof. repeat split; vm_compute; reflexivity. Qed.

(** What [parse_operator] does with two different binary operators: the one
    with the larger table number ends up lower in the tree, on either side. *)
Lemma larger_number_binds_tighter op1 e1 op2 e2 a b c :
  In (op1, e1) operators -> In (op2, e2) operators ->
  op1 <> "NOT" -> op2 <> "NOT" -> fst e1 < fst e2 ->
  token_type a = OPERAND -> token_type b = OPERAND -> token_type c = OPERAND ->
  build_ast [a; operator_token op1 e1; b; operator_token op2 e2; c]
    = Ok (BinOp op1 (Leaf (value a)) (BinOp op2 (Leaf (value b)) (Leaf (value c))), [])
  /\ build_ast [a; operator_token op2 e2; b; operator_token op1 e1; c]
    = Ok (BinOp op1 (BinOp op2 (Leaf (value a)) (Leaf (value b))) (Leaf (value c)), []).
Proof.
  intros H1 H2 N1 N2 Hlt Ha Hb Hc.
  destruct a as [ta va pa aa fa], b as [tb vb pb ab fb], c as [tc vc pc ac fc].
  simpl in Ha, Hb, Hc; subst ta tb tc.
  simpl in H1, H2.
  repeat (destruct H1 as [H1|H1]; [injection H1 as <- <-|]); try contradiction;
    try congruence;
    repeat (destruct H2 as [H2|H2]; [injection H2 as <- <-|]); try contradiction;
    try congruence; simpl in Hlt; try lia;
    (split; vm_compute; reflexivity).
Qed.

(** ** Malformed input *)

Lemma parse_trailing fuel extra :
  inert_head extra = true ->
  (forall tokens node rest,
      parse_primary fuel tokens = Ok (node, rest) ->
      parse_primary fuel (tokens ++ extra) = Ok (node, rest ++ extra)) /\
  (forall level tokens node rest,
      parse_operator fuel level tokens = Ok (node, rest) ->
      parse_operator fuel level (tokens ++ extra) = Ok (node, rest ++ extra)) /\
  (forall level node0 tokens node rest,
      parse_loop fuel level node0 tokens = Ok (node, rest) ->
      parse_loop fuel level node0 (tokens ++ extra) = Ok (node, rest ++ extra)).
Proof.
  intros Hinert.
  induction fuel as [|fuel (IHp & IHo & IHl)]; [repeat split; intros; discriminate|].
  repeat split; intros until rest; parse_unfold; intros H.
  - destruct tokens as [|token tokens]; [discriminate|].
    rewrite <- app_comm_cons.
    destruct (TokenType_eqb (token_type token) OPERAND); [by simplify_eq|].
    destruct (TokenType_eqb (token_type token) PARENTHESIS && value_is (value token) "(").
    { destruct (parse_operator fuel 0 tokens) as [[n r]| |] eqn:E; try discriminate.
      rewrite (IHo _ _ _ _ E).
      destruct r as [|t0 r]; simpl.
      - simplify_eq. destruct extra as [|t0 extra]; [done|].
        simpl in Hinert. apply andb_prop in Hinert as [_ Hv].
        apply negb_true_iff in Hv. by rewrite Hv.
      - destruct (value_is (value t0) ")"); by simplify_eq. }
    destruct (TokenType_eqb (token_type token) OPERATOR && value_is (value token) "NOT");
      [|discriminate].
    destruct (parse_primary fuel tokens) as [[n r]| |] eqn:E; try discriminate.
    rewrite (IHp _ _ _ E). by simplify_eq.
  - destruct (parse_primary fuel tokens) as [[n r]| |] eqn:E; try discriminate.
    rewrite (IHp _ _ _ E). by apply IHl.
  - destruct tokens as [|t0 tokens].
    + simplify_eq. simpl. destruct extra as [|t0 extra]; [done|].
      simpl in Hinert. apply andb_prop in Hinert as [Hv _].
      apply negb_true_iff in Hv. by rewrite Hv.
    + rewrite <- app_comm_cons.
      destruct (TokenType_eqb (token_type t0) OPERATOR); [|by simplify_eq].
      destruct (precedence t0) as [p|]; [|discriminate].
      destruct (p >=? level); [|by simplify_eq].
      destruct (parse_operator fuel _ tokens) as [[n r]| |] eqn:E; try discriminate.
      rewrite (IHo _ _ _ _ E). by apply IHl.
Qed.

(** C2 (counterexample).  ["A AN"] lexes to the three variables A, A, N and
    [build_ast] returns the leaf A, leaving two tokens unconsumed: no
    exception is raised. *)
Lemma trailing_tokens_accepted :
  tokenize_expression "A AN" = Ok [var_token "A"; var_token "A"; var_token "N"]
  /\ build_ast [var_token "A"; var_token "A"; var_token "N"]
     = Ok (Var "A", [var_token "A"; var_token "N"])
  /\ parse_text "A AN" = Ok (Var "A").
Proof. repeat split; vm_compute; reflexivity. Qed.

(** Where an operand is required and missing, [parse_primary] raises. *)
Lemma parse_primary_missing tokens : forall e fuel,
  missing_operand tokens = Some e ->
  (2 * List.length tokens < fuel)%nat ->
  parse_primary fuel tokens = Raise e.
Proof.
  induction tokens as [|t tokens IH]; intros e fuel Hm Hf.
  - injection Hm as <-. destruct fuel; [lia|reflexivity].
  - destruct fuel as [|[|fuel]]; try (simpl in Hf; lia).
    cbn [missing_operand] in Hm. rewrite parse_primary_S.
    destruct (TokenType_eqb (token_type t) OPERAND); [discriminate|].
    unfold is_open, is_prefix_not in Hm.
    destruct (TokenType_eqb (token_type t) PARENTHESIS && value_is (value t) "(").
    { rewrite parse_operator_S, (IH e); [reflexivity|assumption|simpl in Hf; lia]. }
    destruct (TokenType_eqb (token_type t) OPERATOR && value_is (value t) "NOT").
    { rewrite (IH e); [reflexivity|assumption|simpl in Hf; lia]. }
    by injection Hm as <-.
Qed.

(** A result that leaves tokens does not depend on what follows them. *)
Lemma parse_appended fuel :
  (forall tokens node rest extra,
      parse_primary fuel tokens = Ok (node, rest) -> rest <> [] ->
      parse_primary fuel (tokens ++ extra) = Ok (node, rest ++ extra)) /\
  (forall level tokens node rest extra,
      parse_operator fuel level tokens = Ok (node, rest) -> rest <> [] ->
      parse_operator fuel level (tokens ++ extra) = Ok (node, rest ++ extra)) /\
  (forall level node0 tokens node rest extra,
      parse_loop fuel level node0 tokens = Ok (node, rest) -> rest <> [] ->
      parse_loop fuel level node0 (tokens ++ extra) = Ok (node, rest ++ extra)).
Proof.
  induction fuel as [|fuel (IHp & IHo & IHl)]; [repeat split; intros; discriminate|].
  pose proof (parse_consumes fuel) as (_ & _ & Cl).
  assert (Hkeep : forall level node0 r node rest,
             parse_loop fuel level node0 r = Ok (node, rest) -> rest <> [] -> r <> []).
  { intros level node0 r node rest H Hrest ->. apply Cl in H.
    destruct rest; [congruence|simpl in H; lia]. }
  repeat split; intros until extra; parse_unfold; intros H Hrest.
  - destruct tokens as [|token tokens]; [discriminate|].
    rewrite <- app_comm_cons.
    destruct (TokenType_eqb (token_type token) OPERAND); [by simplify_eq|].
    destruct (TokenType_eqb (token_type token) PARENTHESIS && value_is (value token) "(").
    { destruct (parse_operator fuel 0 tokens) as [[n r]| |] eqn:E; try discriminate.
      destruct r as [|t0 r]; [by simplify_eq|].
      rewrite (IHo _ _ _ _ extra E) by discriminate. simpl.
      destruct (value_is (value t0) ")"); by simplify_eq. }
    destruct (TokenType_eqb (token_type token) OPERATOR && value_is (value token) "NOT");
      [|discriminate].
    destruct (parse_primary fuel tokens) as [[n r]| |] eqn:E; try discriminate.
    simplify_eq. by rewrite (IHp _ _ _ extra E).
  - destruct (parse_primary fuel tokens) as [[n r]| |] eqn:E; try discriminate.
    rewrite (IHp _ _ _ extra E) by by eapply Hkeep. by apply IHl.
  - destruct tokens as [|t0 tokens]; [by simplify_eq|].
    rewrite <- app_comm_cons.
    destruct (TokenType_eqb (token_type t0) OPERATOR); [|by simplify_eq].
    destruct (precedence t0) as [q|]; [|discriminate].
    destruct (q >=? level); [|by simplify_eq].
    destruct (parse_operator fuel _ tokens) as [[n r]| |] eqn:E; try discriminate.
    rewrite (IHo _ _ _ _ extra E) by by eapply Hkeep. by apply IHl.
Qed.

Section MissingRightOperand.
Variable op : Token.
Variable p : Z.
Variable extra : list Token.
Variable e : exn.
Hypothesis op_type : token_type op = OPERATOR.
Hypothesis op_precedence : precedence op = Some p.
Hypothesis op_nonneg : 0 <= p.
Hypothesis extra_missing : missing_operand extra = Some e.

(** The loop of [parse_operator] in front of [op]: it takes [op] when its
    precedence reaches the threshold, and then fails on the operand. *)
Lemma parse_loop_at_operator fuel level node0 :
  (2 * List.length extra + 3 <= fuel)%nat ->
  parse_loop fuel level node0 (op :: extra)
    = if p >=? level then Raise e else Ok (node0, op :: extra).
Proof.
  intros Hf. destruct fuel as [|[|fuel]]; try lia.
  rewrite parse_loop_S, op_type, op_precedence.
  change (TokenType_eqb OPERATOR OPERATOR) with true. cbv iota.
  destruct (p >=? level); [|reflexivity].
  rewrite parse_operator_S, (parse_primary_missing extra e); [reflexivity|assumption|lia].
Qed.

(** A complete parse followed by [op] and a missing operand: either [op] is
    left to the caller, which only a threshold above [p] allows, or the
    exception of the missing operand is raised. *)
Lemma parse_operand_missing fuel :
  (forall tokens node fuel',
      parse_primary fuel tokens = Ok (node, []) ->
      (fuel + (2 * List.length extra + 3) <= fuel')%nat ->
      parse_primary fuel' (tokens ++ op :: extra) = Raise e
      \/ parse_primary fuel' (tokens ++ op :: extra) = Ok (node, op :: extra)) /\
  (forall level tokens node fuel',
      parse_operator fuel level tokens = Ok (node, []) ->
      (fuel + (2 * List.length extra + 3) <= fuel')%nat ->
      parse_operator fuel' level (tokens ++ op :: extra) = Raise e
      \/ (p < level
          /\ parse_operator fuel' level (tokens ++ op :: extra) = Ok (node, op :: extra))) /\
  (forall level node0 tokens node fuel',
      parse_loop fuel level node0 tokens = Ok (node, []) ->
      (fuel + (2 * List.length extra + 3) <= fuel')%nat ->
      parse_loop fuel' level node0 (tokens ++ op :: extra) = Raise e
      \/ (p < level
          /\ parse_loop fuel' level node0 (tokens ++ op :: extra) = Ok (node, op :: extra))).
Proof.
  induction fuel as [|fuel (IHp & IHo & IHl)]; [repeat split; intros; discriminate|].
  pose proof (parse_appended fuel) as (Ap & Ao & _).
  pose proof (parse_fuel_mono fuel) as (Mp & Mo & _).
  assert (Hat : forall fuel' level node0,
             (fuel + (2 * List.length extra + 3) <= fuel')%nat ->
             parse_loop fuel' level node0 (op :: extra) = Raise e
             \/ (p < level
                 /\ parse_loop fuel' level node0 (op :: extra) = Ok (node0, op :: extra))).
  { intros fuel' level node0 Hf. rewrite parse_loop_at_operator by lia.
    destruct (p >=? level) eqn:E; [by left|right; split; [lia|reflexivity]]. }
  split; [|split].
  - intros tokens node [|fuel'] H Hf; [lia|].
    rewrite parse_primary_S in H |- *.
    destruct tokens as [|token tokens]; [discriminate|].
    rewrite <- app_comm_cons.
    destruct (TokenType_eqb (token_type token) OPERAND); [right; by simplify_eq|].
    destruct (TokenType_eqb (token_type token) PARENTHESIS && value_is (value token) "(").
    { destruct (parse_operator fuel 0 tokens) as [[n r]| |] eqn:E; try discriminate.
      destruct r as [|t0 r].
      - injection H as <-.
        destruct (IHo 0 tokens n fuel' E ltac:(lia)) as [->|[Hlt _]]; [by left|lia].
      - apply (Ao _ _ _ _ (op :: extra)) in E; [|discriminate].
        apply Mo with (fuel' := fuel') in E; [|discriminate|lia]. rewrite E. simpl.
        destruct (value_is (value t0) ")"); [|discriminate].
        right. by simplify_eq. }
    destruct (TokenType_eqb (token_type token) OPERATOR && value_is (value token) "NOT");
      [|discriminate].
    destruct (parse_primary fuel tokens) as [[n r]| |] eqn:E; try discriminate.
    injection H as <- ->.
    destruct (IHp tokens n fuel' E ltac:(lia)) as [->| ->]; [by left|by right].
  - intros level tokens node [|fuel'] H Hf; [lia|].
    rewrite parse_operator_S in H |- *.
    destruct (parse_primary fuel tokens) as [[n r]| |] eqn:E; try discriminate.
    destruct r as [|t0 r].
    + destruct fuel as [|fuel0]; [discriminate|]. rewrite parse_loop_S in H.
      injection H as <-.
      destruct (IHp tokens n fuel' E ltac:(lia)) as [->| ->]; [by left|].
      apply Hat. lia.
    + apply (Ap _ _ _ (op :: extra)) in E; [|discriminate].
      apply Mp with (fuel' := fuel') in E; [|discriminate|lia]. rewrite E.
      apply IHl; [exact H|lia].
  - intros level node0 tokens node [|fuel'] H Hf; [lia|].
    destruct tokens as [|t0 tokens].
    + rewrite parse_loop_S in H. injection H as <-. apply Hat. lia.
    + rewrite parse_loop_S in H |- *. rewrite <- app_comm_cons.
      destruct (TokenType_eqb (token_type t0) OPERATOR); [|discriminate].
      destruct (precedence t0) as [q|]; [|discriminate].
      destruct (q >=? level); [|discriminate].
      destruct (parse_operator fuel _ tokens) as [[n r]| |] eqn:E; try discriminate.
      destruct r as [|t1 r].
      * destruct fuel as [|fuel0]; [discriminate|]. rewrite parse_loop_S in H.
        injection H as <-.
        destruct (IHo _ tokens n fuel' E ltac:(lia)) as [->|[_ ->]]; [by left|].
        apply Hat. lia.
      * apply (Ao _ _ _ _ (op :: extra)) in E; [|discriminate].
        apply Mo with (fuel' := fuel') in E; [|discriminate|lia]. rewrite E.
        apply IHl; [exact H|lia].
Qed.
End MissingRightOperand.

(** C2 (amended).  Parsing raises, and returns no tree, when an operand is
    missing where one is required: at the start of the input, after an
    opening parenthesis or a NOT, and after an operator that follows a
    completely parsed expression; the exception is [IndexError] when the
    tokens run out and the "Unexpected token" [ValueError] for a token that
    cannot start an operand.  Tokens left after a complete expression are
    not an error: when [tokens] parse to [node], so do [tokens] followed by
    anything that starts with an operand or an opening parenthesis. *)
Theorem parse_errors_and_trailing_tokens :
  (forall tokens e,
      missing_operand tokens = Some e -> build_ast tokens = Raise e)
  /\ (forall tokens node op p extra e,
        build_ast tokens = Ok (node, []) ->
        token_type op = OPERATOR -> precedence op = Some p -> 0 <= p ->
        missing_operand extra = Some e ->
        build_ast (tokens ++ op :: extra) = Raise e)
  /\ (forall tokens node rest extra,
        build_ast tokens = Ok (node, rest) ->
        inert_head extra = true ->
        build_ast (tokens ++ extra) = Ok (node, rest ++ extra)).
Proof.
  split; [|split].
  - intros tokens e Hm. unfold build_ast.
    rewrite Nat.add_succ_r, parse_operator_S.
    rewrite (parse_primary_missing tokens e); [reflexivity|assumption|lia].
  - intros tokens node op p extra e H Hty Hp Hp0 Hm.
    pose proof (parse_operand_missing op p extra e Hty Hp Hp0 Hm
                  (2 * List.length tokens + 2)) as (_ & Ho & _).
    set (fuel' := (2 * List.length (tokens ++ op :: extra) + 2
                   + (2 * List.length extra + 3))%nat).
    rewrite <- (build_ast_fuel fuel') by (unfold fuel'; lia).
    destruct (Ho 0 tokens node fuel' H) as [Hr|[Hlt _]]; [|exact Hr|lia].
    unfold fuel'. rewrite length_app. simpl. lia.
  - intros tokens node rest extra H Hinert.
    pose proof (parse_trailing (2 * List.length tokens + 2) extra Hinert) as (_ & Ho & _).
    apply Ho in H.
    pose proof (parse_fuel_mono (2 * List.length tokens + 2)) as (_ & Mo & _).
    eapply Mo; [exact H | discriminate | rewrite length_app; lia].
Qed.

Lemma parse_errors_and_trailing_tokens_witness :
  build_ast [Token2 PARENTHESIS (NStr "("); operator_token "AND" (2, Binary op_and)]
    = Raise (UnexpectedToken (operator_token "AND" (2, Binary op_and)))
  /\ build_ast ([var_token "A"] ++ operator_token "AND" (2, Binary op_and) :: [])
     = Raise IndexError
  /\ build_ast ([Token2 PARENTHESIS (NStr "("); var_token "A"]
                ++ operator_token "AND" (2, Binary op_and)
                   :: [Token2 PARENTHESIS (NStr ")")])
     = Raise (UnexpectedToken (Token2 PARENTHESIS (NStr ")")))
  /\ build_ast ([var_token "A"] ++ [var_token "A"; var_token "N"])
     = Ok (Var "A", [] ++ [var_token "A"; var_token "N"]).
Proof.
  destruct parse_errors_and_trailing_tokens as (Hstart & Hafter & Htrail).
  split; [apply Hstart; reflexivity|].
  split; [apply (Hafter [var_token "A"] (Var "A") _ 2); (reflexivity || lia)|].
  split.
  - apply (Hafter [Token2 PARENTHESIS (NStr "("); var_token "A"] (Var "A") _ 2);
      (reflexivity || lia).
  - apply Htrail; reflexivity.
Defined.

(** ** Unterminated groups *)



Example unterminated_group :
  parse_text "(A AND B" = parse_text "(A AND B)"
  /\ parse_text "(A AND B" = Ok (BinOp "AND" (Var "A") (Var "B")).
Proof. split; vm_compute; reflexivity. Qed.

(** ** Chains of one binary operator *)

Section Chain.
Variable op : Token.
Variable p : Z.
Hypothesis op_type : token_type op = OPERATOR.
Hypothesis op_precedence : precedence op = Some p.
Hypothesis op_left : is_left (associativity op) = true.

(** The right operand is parsed with threshold [p + 1], so the next [op]
    of the chain, whose precedence is [p], is left to the caller. *)
Lemma right_operand_stops fuel x operands :
  token_type x = OPERAND ->
  parse_operator (S (S fuel)) (p + 1) (x :: chain op operands)
    = Ok (Leaf (value x), chain op operands).
Proof.
  intros Hx. rewrite parse_operator_S, parse_primary_S, Hx.
  change (TokenType_eqb OPERAND OPERAND) with true. cbv iota.
  rewrite parse_loop_S.
  destruct operands as [|y operands]; [reflexivity|].
  cbn [chain flat_map app].
  rewrite op_type, op_precedence.
  change (TokenType_eqb OPERATOR OPERATOR) with true. cbv iota.
  replace (p >=? p + 1) with false by lia. reflexivity.
Qed.

Lemma parse_loop_chain operands : forall fuel level node0,
  Forall (fun x => token_type x = OPERAND) operands ->
  level <= p ->
  (List.length operands + 3 <= fuel)%nat ->
  parse_loop fuel level node0 (chain op operands)
    = Ok (left_nested op node0 operands, []).
Proof.
  induction operands as [|x operands IH]; intros fuel level node0 Hops Hlevel Hfuel.
  - destruct fuel; [simpl in Hfuel; lia|reflexivity].
  - inversion Hops as [|? ? Hx Hops']; subst.
    destruct fuel as [|[|[|fuel]]]; simpl in Hfuel; try lia.
    rewrite parse_loop_S. cbn [chain flat_map app].
    rewrite op_type, op_precedence.
    change (TokenType_eqb OPERATOR OPERATOR) with true. cbv iota.
    replace (p >=? level) with true by lia.
    rewrite op_left.
    fold (chain op operands).
    rewrite (right_operand_stops fuel x operands Hx).
    apply IH; [assumption|assumption|simpl; lia].
Qed.
End Chain.

(** C6.  A chain [x0 op x1 op ... op xn] of one left-associative operator
    between operands is grouped from the left:
    [(...((x0 op x1) op x2)... op xn)]. *)
Theorem equal_precedence_groups_left op p first operands :
  token_type op = OPERATOR ->
  precedence op = Some p ->
  is_left (associativity op) = true ->
  0 <= p ->
  token_type first = OPERAND ->
  Forall (fun x => token_type x = OPERAND) operands ->
  build_ast (first :: chain op operands)
    = Ok (left_nested op (Leaf (value first)) operands, []).
Proof.
  intros Hty Hp Hleft Hp0 Hfirst Hops.
  unfold build_ast.
  rewrite Nat.add_succ_r, parse_operator_S.
  rewrite Nat.add_succ_r, parse_primary_S, Hfirst.
  change (TokenType_eqb OPERAND OPERAND) with true. cbv iota.
  apply (parse_loop_chain op p Hty Hp Hleft); [assumption|assumption|].
  simpl. unfold chain. rewrite (flat_map_constant_length (c := 2%nat)); [lia|reflexivity].
Qed.

(** The binary operators of the table, as tokens, satisfy the premises. *)
Lemma binary_operator_token op entry :
  In (op, entry) operators -> op <> "NOT" ->
  token_type (operator_token op entry) = OPERATOR
  /\ precedence (operator_token op entry) = Some (fst entry)
  /\ is_left (associativity (operator_token op entry)) = true
  /\ 0 <= fst entry.
Proof.
  intros Hin Hnot. simpl in Hin.
  repeat (destruct Hin as [Hin|Hin]; [injection Hin as <- <-|]);
    try contradiction; try congruence; repeat split; simpl; lia.
Qed.

Lemma equal_precedence_groups_left_witness :
  build_ast (var_token "A" :: chain (operator_token "IMP" (5, Binary op_imp))
                                    [var_token "B"; var_token "C"])
    = Ok (BinOp "IMP" (BinOp "IMP" (Var "A") (Var "B")) (Var "C"), []).
Proof.
  apply (equal_precedence_groups_left (operator_token "IMP" (5, Binary op_imp)) 5
           (var_token "A") [var_token "B"; var_token "C"]);
    [reflexivity | reflexivity | reflexivity | lia | reflexivity |].
  repeat constructor.
Defined.

Example imp_chain :
  parse_text "A IMP B IMP C"
    = Ok (BinOp "IMP" (BinOp "IMP" (Var "A") (Var "B")) (Var "C")).
Proof. vm_compute. reflexivity. Qed.

(** ** What the lexer emits, what the parser builds *)

Lemma match_operator_In table s op entry :
  match_operator table s = Some (op, entry) ->
  In (op, entry) table /\ String.prefix op s = true.
Proof.
  induction table as [|[k e] table IH]; simpl; [discriminate|].
  destruct (String.prefix k s) eqn:E.
  - intros [= <- <-]. auto.
  - intros H. apply IH in H as [H1 H2]. auto.
Qed.

Lemma operator_token_lexer op entry :
  In (op, entry) operators -> lexer_token (operator_token op entry) = true.
Proof.
  simpl. intros H.
  repeat (destruct H as [H|H]; [injection H as <- <-; reflexivity|]).
  contradiction.
Qed.

Lemma tokenize_loop_S fuel char s' tokens :
  let s := String char s' in
  tokenize_loop (S fuel) s tokens =
  if isspace char then tokenize_loop fuel (drop_chars 1 s) tokens
  else if Ascii.eqb char "("%char then
    tokenize_loop fuel (drop_chars 1 s) (tokens ++ [Token2 PARENTHESIS (NStr "(")])
  else if Ascii.eqb char ")"%char then
    tokenize_loop fuel (drop_chars 1 s) (tokens ++ [Token2 PARENTHESIS (NStr ")")])
  else if String.prefix "TRUE" s then
    tokenize_loop fuel (drop_chars 4 s) (tokens ++ [Token2 OPERAND (NBool true)])
  else if String.prefix "FALSE" s then
    tokenize_loop fuel (drop_chars 5 s) (tokens ++ [Token2 OPERAND (NBool false)])
  else
    match match_operator operators s with
    | Some (op, entry) =>
        tokenize_loop fuel (drop_chars (String.length op) s)
                      (tokens ++ [operator_token op entry])
    | None =>
        if isalpha char then
          tokenize_loop fuel (drop_chars 1 s) (tokens ++ [var_token char])
        else Raise (UnknownCharacter char)
    end.
Proof. reflexivity. Qed.

Lemma tokenize_loop_tokens fuel : forall s acc tokens,
  Forall (fun t => lexer_token t = true) acc ->
  tokenize_loop fuel s acc = Ok tokens ->
  Forall (fun t => lexer_token t = true) tokens.
Proof.
  induction fuel as [|fuel IH]; intros s acc tokens Hacc H;
    destruct s as [|char s]; try discriminate;
    [by injection H as <- | by injection H as <- |].
  assert (Hext : forall t, lexer_token t = true ->
                           Forall (fun t => lexer_token t = true) (acc ++ [t])).
  { intros t Ht. apply Forall_app. split; [assumption|by constructor]. }
  rewrite tokenize_loop_S in H. cbv zeta in H.
  destruct (isspace char); [by eapply IH|].
  destruct (Ascii.eqb char "("); [eapply IH; [|exact H]; by apply Hext|].
  destruct (Ascii.eqb char ")"); [eapply IH; [|exact H]; by apply Hext|].
  destruct (String.prefix "TRUE" _); [eapply IH; [|exact H]; by apply Hext|].
  destruct (String.prefix "FALSE" _); [eapply IH; [|exact H]; by apply Hext|].
  destruct (match_operator operators _) as [[op entry]|] eqn:E.
  - eapply IH; [|exact H]. apply Hext, operator_token_lexer.
    by apply match_operator_In in E as [E _].
  - destruct (isalpha char) eqn:Ealpha; [|discriminate].
    eapply IH; [|exact H]. by apply Hext.
Qed.

Lemma tokenize_expression_tokens s tokens :
  tokenize_expression s = Ok tokens ->
  Forall (fun t => lexer_token t = true) tokens.
Proof. apply tokenize_loop_tokens. constructor. Qed.

Lemma lexer_token_operand t :
  lexer_token t = true -> token_type t = OPERAND ->
  three_shapes (Leaf (value t)) = true.
Proof.
  unfold lexer_token. intros H Hty. rewrite Hty in H. simpl.
  destruct (value t); assumption.
Qed.

Lemma lexer_token_operator t :
  lexer_token t = true -> token_type t = OPERATOR ->
  exists s, value t = NStr s /\ is_keyword s = true.
Proof.
  unfold lexer_token. intros H Hty. rewrite Hty in H.
  destruct (value t) as [|s]; [discriminate|].
  apply andb_prop in H as [H _]. eauto.
Qed.

Lemma TokenType_eqb_eq a b : TokenType_eqb a b = true -> a = b.
Proof. destruct a, b; simpl; congruence. Qed.

Lemma value_is_eq v s : value_is v s = true -> v = NStr s.
Proof.
  destruct v as [|s']; simpl; [discriminate|].
  intros H. apply String.eqb_eq in H. by subst.
Qed.

(** On lexer tokens every tree that the parsing functions return has the
    three shapes, and what is left of the input is still lexer tokens. *)
Lemma parse_shapes fuel :
  (forall tokens node rest,
      Forall (fun t => lexer_token t = true) tokens ->
      parse_primary fuel tokens = Ok (node, rest) ->
      three_shapes node = true /\ Forall (fun t => lexer_token t = true) rest) /\
  (forall level tokens node rest,
      Forall (fun t => lexer_token t = true) tokens ->
      parse_operator fuel level tokens = Ok (node, rest) ->
      three_shapes node = true /\ Forall (fun t => lexer_token t = true) rest) /\
  (forall level node0 tokens node rest,
      Forall (fun t => lexer_token t = true) tokens ->
      three_shapes node0 = true ->
      parse_loop fuel level node0 tokens = Ok (node, rest) ->
      three_shapes node = true /\ Forall (fun t => lexer_token t = true) rest).
Proof.
  induction fuel as [|fuel (IHp & IHo & IHl)]; [repeat split; intros; discriminate|].
  split; [|split].
  - intros tokens node rest Htok H. rewrite parse_primary_S in H.
    destruct tokens as [|token tokens]; [discriminate|].
    inversion Htok as [|? ? Ht Htok']; subst.
    destruct (TokenType_eqb (token_type token) OPERAND) eqn:E1.
    { injection H as <- <-. split; [|assumption].
      apply lexer_token_operand; [assumption|by apply TokenType_eqb_eq]. }
    destruct (TokenType_eqb (token_type token) PARENTHESIS && value_is (value token) "(").
    { destruct (parse_operator fuel 0 tokens) as [[n r]| |] eqn:E; try discriminate.
      apply IHo in E as [Hn Hr]; [|assumption].
      destruct r as [|t0 r]; [by injection H as <- <-|].
      inversion Hr; subst.
      destruct (value_is (value t0) ")"); by injection H as <- <-. }
    destruct (TokenType_eqb (token_type token) OPERATOR && value_is (value token) "NOT") eqn:E3;
      [|discriminate].
    destruct (parse_primary fuel tokens) as [[n r]| |] eqn:E; try discriminate.
    apply IHp in E as [Hn Hr]; [|assumption].
    injection H as <- <-. split; [|assumption].
    apply andb_prop in E3 as [_ E3]. simpl. by rewrite E3, Hn.
  - intros level tokens node rest Htok H. rewrite parse_operator_S in H.
    destruct (parse_primary fuel tokens) as [[n r]| |] eqn:E; try discriminate.
    apply IHp in E as [Hn Hr]; [|assumption]. eapply IHl; eauto.
  - intros level node0 tokens node rest Htok Hnode0 H. rewrite parse_loop_S in H.
    destruct tokens as [|t0 tokens]; [by injection H as <- <-|].
    inversion Htok as [|? ? Ht Htok']; subst.
    destruct (TokenType_eqb (token_type t0) OPERATOR) eqn:E1; [|by injection H as <- <-].
    destruct (precedence t0) as [p|]; [|discriminate].
    destruct (p >=? level); [|by injection H as <- <-].
    destruct (parse_operator fuel _ tokens) as [[n r]| |] eqn:E; try discriminate.
    apply IHo in E as [Hn Hr]; [|assumption].
    eapply IHl; [exact Hr| |exact H].
    apply TokenType_eqb_eq in E1.
    destruct (lexer_token_operator t0 Ht E1) as (s & -> & Hs).
    simpl. by rewrite Hs, Hnode0, Hn.
Qed.

Lemma parser_output_shapes s tokens node rest :
  tokenize_expression s = Ok tokens ->
  build_ast tokens = Ok (node, rest) ->
  three_shapes node = true.
Proof.
  intros Hlex Hparse. apply tokenize_expression_tokens in Hlex.
  pose proof (parse_shapes (2 * List.length tokens + 2)) as (_ & Ho & _).
  by destruct (Ho 0 tokens node rest Hlex Hparse).
Qed.

Lemma three_shapes_inner_values t :
  three_shapes t = true -> inner_values_known t = true.
Proof.
  induction t as [v|v l IHl|v r IHr|v l r IHl IHr] using ASTNode_nested_ind; simpl; intros H;
    try reflexivity; try discriminate.
  - apply andb_prop in H as [Hv Hl]. apply value_is_eq in Hv as ->.
    simpl. by rewrite (IHl Hl).
  - apply andb_prop in H as [H Hr]. apply andb_prop in H as [Hv Hl].
    rewrite Hv. simpl. rewrite (IHl Hl). by apply IHr.
Qed.

Lemma known_values_no_KeyError t : forall variable_values k,
  inner_values_known t = true ->
  evaluate_tree t variable_values <> Raise (KeyError k).
Proof.
  induction t as [v|v l IHl|v r IHr|v l r IHl IHr] using ASTNode_nested_ind; intros vv k H; simpl in *.
  - destruct v; discriminate.
  - apply andb_prop in H as [H _]. apply andb_prop in H as [Hv Hl].
    specialize (IHl vv k Hl).
    destruct (evaluate_tree l vv) as [operand| |]; simpl; try congruence.
    destruct v as [|s]; [discriminate|]. unfold apply_unary.
    unfold is_keyword in Hv.
    destruct (operators_get operators s) as [[? [f|f]]|]; discriminate.
  - discriminate.
  - apply andb_prop in H as [H Hr]. apply andb_prop in H as [Hv Hl].
    specialize (IHl vv k Hl). specialize (IHr vv k Hr).
    destruct (evaluate_tree l vv) as [lv| |]; simpl; try congruence.
    destruct (evaluate_tree r vv) as [rv| |]; simpl; try congruence.
    destruct v as [|s]; [discriminate|]. unfold apply_binary.
    unfold is_keyword in Hv.
    destruct (operators_get operators s) as [[? [f|f]]|]; discriminate.
Qed.

Lemma three_shapes_no_AttributeError t : forall variable_values,
  three_shapes t = true ->
  evaluate_tree t variable_values <> Raise AttributeError.
Proof.
  induction t as [v|v l IHl|v r IHr|v l r IHl IHr] using ASTNode_nested_ind; intros vv H; simpl in *.
  - destruct v; discriminate.
  - apply andb_prop in H as [Hv Hl]. apply value_is_eq in Hv as ->.
    specialize (IHl vv Hl).
    destruct (evaluate_tree l vv) as [operand| |]; simpl; congruence.
  - discriminate.
  - apply andb_prop in H as [H Hr]. apply andb_prop in H as [Hv Hl].
    specialize (IHl vv Hl). specialize (IHr vv Hr).
    destruct (evaluate_tree l vv) as [lv| |]; simpl; try congruence.
    destruct (evaluate_tree r vv) as [rv| |]; simpl; try congruence.
    destruct v as [|s]; [discriminate|]. unfold apply_binary.
    destruct (operators_get operators s) as [[? [f|f]]|]; discriminate.
Qed.

(** C9.  In a tree that [build_ast] returns for tokens of
    [tokenize_expression], every node with a child carries a key of the
    operator table, and [evaluate_tree] never raises the [KeyError] of a
    missing operator, whatever the assignment. *)
Theorem no_unknown_operator s tokens node rest :
  tokenize_expression s = Ok tokens ->
  build_ast tokens = Ok (node, rest) ->
  inner_values_known node = true
  /\ forall variable_values k,
       evaluate_tree node variable_values <> Raise (KeyError k).
Proof.
  intros Hlex Hparse.
  pose proof (parser_output_shapes s tokens node rest Hlex Hparse) as Hshape.
  apply three_shapes_inner_values in Hshape.
  split; [assumption|].
  intros vv k. by apply known_values_no_KeyError.
Qed.

Lemma no_unknown_operator_witness :
  inner_values_known (BinOp "AND" (Not (Var "A")) (Const true)) = true
  /\ forall variable_values k,
       evaluate_tree (BinOp "AND" (Not (Var "A")) (Const true)) variable_values
         <> Raise (KeyError k).
Proof.
  apply (no_unknown_operator "not a and true"
           [operator_token "NOT" (1, Unary op_not); var_token "A";
            operator_token "AND" (2, Binary op_and); Token2 OPERAND (NBool true)]
           _ []); reflexivity.
Defined.

(** C10.  Every node of a tree that [build_ast] returns for tokens of
    [tokenize_expression] is a leaf holding a boolean or a one-letter name,
    a node with a left child only and value ["NOT"], or a node with both
    children and an operator keyword as value.  No node has a right child
    only, so [evaluate_tree] never reaches [None.left]. *)
Theorem parser_builds_three_shapes s tokens node rest :
  tokenize_expression s = Ok tokens ->
  build_ast tokens = Ok (node, rest) ->
  three_shapes node = true
  /\ forall variable_values,
       evaluate_tree node variable_values <> Raise AttributeError.
Proof.
  intros Hlex Hparse.
  pose proof (parser_output_shapes s tokens node rest Hlex Hparse) as Hshape.
  split; [assumption|].
  intros vv. by apply three_shapes_no_AttributeError.
Qed.

Lemma parser_builds_three_shapes_witness :
  three_shapes (BinOp "NOT" (Const true) (Const false)) = true
  /\ forall variable_values,
       evaluate_tree (BinOp "NOT" (Const true) (Const false)) variable_values
         <> Raise AttributeError.
Proof.
  apply (parser_builds_three_shapes "TRUE NOT FALSE"
           [Token2 OPERAND (NBool true); operator_token "NOT" (1, Unary op_not);
            Token2 OPERAND (NBool false)]
           _ []); reflexivity.
Defined.

(** ** Evaluation *)

Lemma is_truth_value_truthy v b : is_truth_value v b -> truthy v = b.
Proof. intros [->| ->]; [reflexivity|destruct b; reflexivity]. Qed.

Lemma is_truth_value_int v b : is_truth_value v b -> py_int v = Z.b2z b.
Proof. intros [->| ->]; [destruct b; reflexivity|reflexivity]. Qed.

(** The six lambdas against the truth tables. *)
Lemma op_not_standard a x :
  is_truth_value a x -> op_not a = PyInt (Z.b2z (negb x)).
Proof. intros [->| ->]; destruct x; reflexivity. Qed.

Lemma binary_operator_standard s prec f a b x y :
  operators_get operators s = Some (prec, Binary f) ->
  is_truth_value a x -> is_truth_value b y ->
  f a b = PyInt (Z.b2z (connective s x y)).
Proof.
  intros Hget Ha Hb. unfold operators, operators_get, connective in *.
  repeat match type of Hget with
    | (if String.eqb ?k s then _ else _) = _ => destruct (String.eqb k s) eqn:?
    end; try discriminate;
    match goal with
    | E : String.eqb _ s = true |- _ => apply String.eqb_eq in E; subst s
    end;
    injection Hget as <- <-;
    destruct Ha as [->| ->], Hb as [->| ->]; destruct x, y; reflexivity.
Qed.

(** On a well-formed tree [evaluate_tree] returns, and returns the truth
    value of propositional logic. *)
Lemma evaluate_standard t : forall variable_values,
  well_formed t = true ->
  exists v, evaluate_tree t variable_values = Ok v
            /\ is_truth_value v (standard_value variable_values t).
Proof.
  induction t as [v|v l IHl|v r IHr|v l r IHl IHr] using ASTNode_nested_ind;
    intros vv H; simpl in H.
  - destruct v as [b|x]; simpl; eexists; split; try reflexivity; by left.
  - apply andb_prop in H as [Hv Hl]. apply value_is_eq in Hv as ->.
    destruct (IHl vv Hl) as (a & Ea & Ha).
    exists (op_not a). cbn [evaluate_tree]. rewrite Ea. split; [reflexivity|].
    right. by apply op_not_standard.
  - discriminate.
  - apply andb_prop in H as [H Hr]. apply andb_prop in H as [Hv Hl].
    destruct (IHl vv Hl) as (a & Ea & Ha). destruct (IHr vv Hr) as (b & Eb & Hb).
    destruct v as [|s]; [discriminate|]. unfold is_binary_operator in Hv.
    destruct (operators_get operators s) as [[prec [f|f]]|] eqn:Hget; try discriminate.
    exists (f a b). cbn [evaluate_tree]. rewrite Ea, Eb.
    cbn [bind apply_binary]. rewrite Hget.
    split; [reflexivity|]. right. by eapply binary_operator_standard.
Qed.

Lemma keyword_binary s :
  is_keyword s = true -> String.eqb s "NOT" = false ->
  is_binary_operator (NStr s) = true.
Proof.
  unfold is_keyword, is_binary_operator, operators, operators_get.
  intros Hk Hn.
  destruct (String.eqb "NOT" s) eqn:E;
    [apply String.eqb_eq in E; subst s; discriminate|].
  repeat match goal with
    | |- context [if String.eqb ?k s then _ else _] =>
        destruct (String.eqb k s); [reflexivity|]
    end.
  repeat match type of Hk with
    | context [if String.eqb ?k s then _ else _] =>
        destruct (String.eqb k s)
    end; discriminate.
Qed.

Lemma shapes_well_formed t :
  three_shapes t = true -> no_infix_not t = true -> well_formed t = true.
Proof.
  induction t as [v|v l IHl|v r IHr|v l r IHl IHr] using ASTNode_nested_ind;
    simpl; intros Hs Hn; try reflexivity; try discriminate.
  - apply andb_prop in Hs as [Hv Hl]. rewrite Hv. simpl.
    apply IHl; [assumption|].
    apply andb_prop in Hn as [Hn _]. by apply andb_prop in Hn as [_ Hn].
  - apply andb_prop in Hs as [Hs Hr]. apply andb_prop in Hs as [Hv Hl].
    apply andb_prop in Hn as [Hn Hnr]. apply andb_prop in Hn as [Hnv Hnl].
    rewrite (IHl Hl Hnl), (IHr Hr Hnr).
    destruct v as [|s]; [discriminate|].
    rewrite keyword_binary; [reflexivity|assumption|].
    simpl in Hnv. rewrite andb_true_r in Hnv. by apply negb_true_iff in Hnv.
Qed.



(** The truth tables themselves, on the values the evaluator passes. *)
Example operator_truth_tables :
  forall a b : bool,
    op_not (PyBool a) = PyInt (Z.b2z (negb a))
    /\ op_and (PyBool a) (PyBool b) = PyInt (Z.b2z (a && b))
    /\ op_xor (PyBool a) (PyBool b) = PyInt (Z.b2z (xorb a b))
    /\ op_or (PyBool a) (PyBool b) = PyInt (Z.b2z (a || b))
    /\ op_imp (PyBool a) (PyBool b) = PyInt (Z.b2z (implb a b))
    /\ op_iff (PyBool a) (PyBool b) = PyInt (Z.b2z (Bool.eqb a b)).
Proof. intros [] []; repeat split. Qed.

(** C5.  On the variable-free input ["TRUE OR FALSE AND FALSE"] the parser
    groups OR before AND, and evaluating its tree returns 0, while the
    truth value of TRUE OR (FALSE AND FALSE) is true; the evaluator itself
    gives 1 on the tree grouped that way.  On the variable-free input
    ["TRUE NOT FALSE"] the parser returns a tree and its evaluation raises
    a [TypeError]. *)
Theorem variable_free_value_differs :
  parse_text "TRUE OR FALSE AND FALSE"
    = Ok (BinOp "AND" (BinOp "OR" (Const true) (Const false)) (Const false))
  /\ (do t <- parse_text "TRUE OR FALSE AND FALSE"; evaluate_tree t ∅)
     = Ok (PyInt 0)
  /\ true || (false && false) = true
  /\ evaluate_tree (BinOp "OR" (Const true) (BinOp "AND" (Const false) (Const false))) ∅
     = Ok (PyInt 1)
  /\ parse_text "TRUE NOT FALSE" = Ok (BinOp "NOT" (Const true) (Const false))
  /\ (do t <- parse_text "TRUE NOT FALSE"; evaluate_tree t ∅) = Raise TypeError.
Proof. repeat split; vm_compute; reflexivity. Qed.

(** ** The truth table *)

Lemma table_row_eq ast variables return_as_dict combination :
  table_row ast variables return_as_dict combination =
  do result <- evaluate_tree ast (dict_of_zip int_bool variables combination);
  Ok (make_row return_as_dict variables combination (result_val result)).
Proof.
  unfold table_row, make_row, result_val.
  destruct (evaluate_tree _ _); simpl; try reflexivity.
  by destruct return_as_dict.
Qed.

(** C4 (counterexample).  With no variables the table of the constant TRUE
    has one row, which holds the result 1. *)
Lemma empty_variables_one_row :
  generate_truth_table (Const true) [] false = Ok [RowList [1]]
  /\ generate_truth_combinations 0 = [[]].
Proof. split; reflexivity. Qed.

(** C4 (amended).  With no variables there is a single combination, the
    empty one, and the table is the single row that holds the result of one
    evaluation under the empty assignment (as a one-element list, or as a
    dict with the only key ["RESULT"]); it is empty for no tree.  When that
    evaluation raises, so does the table. *)
Theorem empty_variables_single_result_row ast return_as_dict :
  generate_truth_table ast [] return_as_dict =
  do result <- evaluate_tree ast ∅;
  Ok [if return_as_dict then RowDict {[ "RESULT" := result_val result ]}
      else RowList [result_val result]].
Proof.
  unfold generate_truth_table. simpl.
  rewrite table_row_eq. unfold dict_of_zip. simpl.
  destruct (evaluate_tree ast ∅); reflexivity.
Qed.

(** *** Binary counting *)

Lemma big_endian_rev bits : big_endian (rev bits) = little_endian bits.
Proof.
  unfold big_endian, little_endian.
  rewrite <- fold_left_rev_right, rev_involutive.
  induction bits as [|b bits IH]; simpl; [reflexivity|]. rewrite IH. lia.
Qed.

Lemma range_S n : range (S n) = 0 :: map Z.succ (range n).
Proof.
  unfold range. cbn [seq map]. f_equal.
  rewrite <- seq_shift, !map_map. apply map_ext. intros j. lia.
Qed.

Lemma length_range n : List.length (range n) = n.
Proof. unfold range. by rewrite length_map, length_seq. Qed.

Lemma bits_of_S n i : bits_of (S n) i = i mod 2 :: bits_of n (i / 2).
Proof.
  unfold bits_of. rewrite range_S. cbn [map]. f_equal.
  - rewrite Z.shiftr_0_r. change 1 with (Z.ones 1). by rewrite Z.land_ones.
  - rewrite map_map. apply map_ext_in. intros j Hj.
    assert (0 <= j).
    { unfold range in Hj. apply in_map_iff in Hj as (k & <- & _). lia. }
    rewrite <- Z.add_1_l, <- Z.shiftr_shiftr by lia.
    by rewrite (Z.shiftr_div_pow2 i 1).
Qed.

Lemma length_bits_of n i : List.length (bits_of n i) = n.
Proof. unfold bits_of. by rewrite length_map, length_range. Qed.

Lemma bits_of_are_bits n : forall i, Forall is_bit (bits_of n i).
Proof.
  induction n as [|n IH]; intros i; [constructor|].
  rewrite bits_of_S. constructor; [|apply IH].
  unfold is_bit. pose proof (Z.mod_pos_bound i 2). lia.
Qed.

Lemma little_endian_bits_of n : forall i,
  little_endian (bits_of n i) = i mod 2 ^ Z.of_nat n.
Proof.
  induction n as [|n IH]; intros i.
  - simpl. by rewrite Z.mod_1_r.
  - rewrite bits_of_S. cbn [little_endian fold_right].
    fold (little_endian (bits_of n (i / 2))). rewrite IH.
    rewrite Nat2Z.inj_succ, Z.pow_succ_r by lia.
    rewrite Z.rem_mul_r; lia.
Qed.

Lemma little_endian_bound bits :
  Forall is_bit bits ->
  0 <= little_endian bits < 2 ^ Z.of_nat (List.length bits).
Proof.
  induction 1 as [|b bits Hb _ IH]; [simpl; lia|].
  cbn [little_endian fold_right List.length].
  fold (little_endian bits).
  rewrite Nat2Z.inj_succ, Z.pow_succ_r by lia.
  destruct Hb; subst; lia.
Qed.

Lemma little_endian_inj bits : forall bits',
  Forall is_bit bits -> Forall is_bit bits' ->
  List.length bits = List.length bits' ->
  little_endian bits = little_endian bits' -> bits = bits'.
Proof.
  induction bits as [|b bits IH]; intros [|b' bits'] Hb Hb' Hlen Heq;
    try discriminate; [reflexivity|].
  inversion Hb as [|? ? [|] ?]; inversion Hb' as [|? ? [|] ?]; subst;
    cbn [little_endian fold_right] in Heq;
    fold (little_endian bits) in Heq; fold (little_endian bits') in Heq;
    try lia; f_equal; apply IH; auto; lia.
Qed.

Lemma combinations_eq n :
  generate_truth_combinations n = map (combination_of n) (range (2 ^ n)).
Proof. reflexivity. Qed.

Lemma lookup_map {A B : Type} (f : A -> B) (l : list A) i :
  map f l !! i = f <$> (l !! i).
Proof. apply (list_lookup_fmap f l i). Qed.

Lemma lookup_range m i : (i < m)%nat -> range m !! i = Some (Z.of_nat i).
Proof.
  intros Hi. unfold range. rewrite lookup_map, lookup_seq_lt by assumption.
  reflexivity.
Qed.

Lemma lookup_combinations n i combination :
  generate_truth_combinations n !! i = Some combination <->
  (i < 2 ^ n)%nat /\ combination = combination_of n (Z.of_nat i).
Proof.
  rewrite combinations_eq, lookup_map. split.
  - intros H. destruct (range (2 ^ n) !! i) as [z|] eqn:E; [|discriminate].
    assert (Hi : (i < 2 ^ n)%nat).
    { apply lookup_lt_Some in E. by rewrite length_range in E. }
    rewrite lookup_range in E by assumption.
    injection E as <-. simpl in H. injection H as <-. auto.
  - intros [Hi ->]. by rewrite lookup_range.
Qed.

Lemma pow2_of_nat n : Z.of_nat (2 ^ n) = 2 ^ Z.of_nat n.
Proof. by rewrite Nat2Z.inj_pow. Qed.

Lemma big_endian_combination n i :
  (i < 2 ^ n)%nat -> big_endian (combination_of n (Z.of_nat i)) = Z.of_nat i.
Proof.
  intros Hi. unfold combination_of.
  rewrite big_endian_rev, little_endian_bits_of.
  apply Z.mod_small. rewrite <- pow2_of_nat. lia.
Qed.

(** Every assignment of [n] variables is the combination of exactly one
    counter value. *)
Lemma combinations_cover n (assignment : list bool) :
  List.length assignment = n ->
  exists! i, generate_truth_combinations n !! i = Some (map Z.b2z assignment).
Proof.
  intros Hlen.
  set (bits := rev (map Z.b2z assignment)).
  assert (Hbits : Forall is_bit bits).
  { apply Forall_rev, List.Forall_forall. intros b Hb.
    apply in_map_iff in Hb as ([|] & <- & _); [by right|by left]. }
  assert (Hl : List.length bits = n).
  { unfold bits. by rewrite length_rev, length_map. }
  pose proof (little_endian_bound bits Hbits) as Hbound. rewrite Hl in Hbound.
  assert (Hmap : map Z.b2z assignment = rev bits).
  { unfold bits. by rewrite rev_involutive. }
  rewrite Hmap. clearbody bits.
  assert (Hrev : forall i, (i < 2 ^ n)%nat ->
            (combination_of n (Z.of_nat i) = rev bits
             <-> Z.of_nat i = little_endian bits)).
  { intros i Hi. split.
    - intros H. rewrite <- (big_endian_combination n i Hi), H.
      apply big_endian_rev.
    - intros H. unfold combination_of. f_equal.
      apply little_endian_inj; [apply bits_of_are_bits|assumption| |].
      + by rewrite length_bits_of.
      + rewrite little_endian_bits_of, <- H. apply Z.mod_small.
        rewrite <- pow2_of_nat. lia. }
  assert (Hlt : (Z.to_nat (little_endian bits) < 2 ^ n)%nat).
  { apply Nat2Z.inj_lt. rewrite Z2Nat.id, pow2_of_nat; lia. }
  exists (Z.to_nat (little_endian bits)). split.
  - apply lookup_combinations. split; [assumption|].
    symmetry. apply Hrev; [assumption|]. rewrite Z2Nat.id; lia.
  - intros j Hj. apply lookup_combinations in Hj as [Hj Hc].
    symmetry in Hc. apply Hrev in Hc; [|assumption]. lia.
Qed.

(** *** The assignment of a row *)

Lemma fold_insert_other {A : Type} (f : Z -> A) pairs : forall (d : gmap string A) var,
  ~ In var (map fst pairs) ->
  fold_left (fun d '(var, val) => <[var := f val]> d) pairs d !! var = d !! var.
Proof.
  induction pairs as [|[v c] pairs IH]; intros d var Hnotin; [reflexivity|].
  simpl in *. rewrite IH by tauto. apply lookup_insert_ne. tauto.
Qed.

Lemma In_fst_combine {A B : Type} (l : list A) (l' : list B) x :
  In x (map fst (combine l l')) -> In x l.
Proof.
  intros H. apply in_map_iff in H as ([a b] & <- & H). by apply in_combine_l in H.
Qed.

(** With distinct names, the dict comprehension binds the [k]-th variable
    to the [k]-th value. *)
Lemma dict_of_zip_lookup {A : Type} (f : Z -> A) variables :
  forall combination k var,
  NoDup variables ->
  List.length combination = List.length variables ->
  variables !! k = Some var ->
  dict_of_zip f variables combination !! var = f <$> combination !! k.
Proof.
  unfold dict_of_zip. generalize (∅ : gmap string A).
  induction variables as [|v variables IH]; intros d combination k var Hnd Hlen Hk;
    [discriminate|].
  destruct combination as [|c combination]; [discriminate|].
  inversion Hnd as [|? ? Hv Hnd']; subst. simpl in Hlen.
  destruct k as [|k]; simpl in Hk |- *.
  - injection Hk as ->. rewrite fold_insert_other.
    + apply lookup_insert_eq.
    + intros Hin. apply In_fst_combine, list_elem_of_In in Hin. contradiction.
  - apply IH; [assumption|lia|assumption].
Qed.

(** *** The loop over the combinations *)

Lemma table_loop_rows ast variables return_as_dict combinations : forall table,
  (forall combination, In combination combinations ->
     exists result,
       evaluate_tree ast (dict_of_zip int_bool variables combination) = Ok result) ->
  exists rows,
    table_loop ast variables return_as_dict combinations table = Ok (table ++ rows)
    /\ List.length rows = List.length combinations
    /\ forall i combination, combinations !! i = Some combination ->
         exists result,
           evaluate_tree ast (dict_of_zip int_bool variables combination) = Ok result
           /\ rows !! i = Some (make_row return_as_dict variables combination
                                         (result_val result)).
Proof.
  induction combinations as [|c combinations IH]; intros table Hev.
  - exists []. simpl. rewrite app_nil_r. repeat split. intros i ? H. discriminate.
  - destruct (Hev c (or_introl eq_refl)) as [result Hresult].
    destruct (IH (table ++ [make_row return_as_dict variables c (result_val result)]))
      as (rows & Hloop & Hlen & Hrows).
    { intros c' Hc'. apply Hev. by right. }
    exists (make_row return_as_dict variables c (result_val result) :: rows).
    cbn [table_loop]. rewrite table_row_eq, Hresult. cbn [bind].
    rewrite Hloop, <- app_assoc. repeat split.
    + simpl. by rewrite Hlen.
    + intros [|i] combination Hi; simpl in Hi.
      * injection Hi as <-. by exists result.
      * by apply Hrows.
Qed.

Lemma evaluate_tree_returns_or_raises t : forall a : gmap string bool,
  evaluate_tree t a <> OutOfFuel.
Proof.
  induction t as [v|v l IHl|v r IHr|v l r IHl IHr] using ASTNode_nested_ind;
    intros a; cbn [evaluate_tree].
  - destruct v; discriminate.
  - specialize (IHl a). destruct (evaluate_tree l a) as [x| |]; try congruence;
      [|discriminate]. cbn [bind]. unfold apply_unary.
    destruct v as [|s]; [discriminate|].
    destruct (operators_get operators s) as [[? [f|f]]|]; discriminate.
  - discriminate.
  - specialize (IHl a). specialize (IHr a).
    destruct (evaluate_tree l a) as [x| |]; try congruence; [|discriminate].
    destruct (evaluate_tree r a) as [y| |]; try congruence; [|discriminate].
    cbn [bind]. unfold apply_binary.
    destruct v as [|s]; [discriminate|].
    destruct (operators_get operators s) as [[? [f|f]]|]; discriminate.
Qed.

(** The loop either evaluates every combination and returns one row for
    each, or raises the exception of some combination. *)
Lemma table_loop_outcome ast variables return_as_dict combinations : forall table,
  (exists rows,
     table_loop ast variables return_as_dict combinations table = Ok (table ++ rows)
     /\ List.length rows = List.length combinations
     /\ forall i combination, combinations !! i = Some combination ->
          exists result,
            evaluate_tree ast (dict_of_zip int_bool variables combination) = Ok result
            /\ rows !! i = Some (make_row return_as_dict variables combination
                                          (result_val result)))
  \/ (exists i combination e,
        combinations !! i = Some combination
        /\ evaluate_tree ast (dict_of_zip int_bool variables combination) = Raise e
        /\ table_loop ast variables return_as_dict combinations table = Raise e).
Proof.
  induction combinations as [|c combinations IH]; intros table.
  - left. exists []. simpl. rewrite app_nil_r. repeat split. intros i ? H. discriminate.
  - cbn [table_loop]. rewrite table_row_eq.
    pose proof (evaluate_tree_returns_or_raises ast
                  (dict_of_zip int_bool variables c)) as Hfuel.
    destruct (evaluate_tree ast (dict_of_zip int_bool variables c))
      as [result|e|] eqn:Hc; [| |congruence].
    + cbn [bind].
      destruct (IH (table ++ [make_row return_as_dict variables c (result_val result)]))
        as [(rows & Hloop & Hlen & Hrows)|(i & combination & e & Hi & He & Hloop)].
      * left. exists (make_row return_as_dict variables c (result_val result) :: rows).
        rewrite Hloop, <- app_assoc. repeat split; [simpl; by rewrite Hlen|].
        intros [|i] combination Hi; simpl in Hi.
        -- injection Hi as <-. by exists result.
        -- by apply Hrows.
      * right. exists (S i), combination, e. by rewrite Hloop.
    + right. exists 0%nat, c, e. by repeat split.
Qed.

Lemma bits_as_booleans bits :
  Forall is_bit bits -> exists assignment : list bool, bits = map Z.b2z assignment.
Proof.
  induction 1 as [|b bits Hb _ [assignment ->]]; [by exists []|].
  destruct Hb as [->| ->]; [exists (false :: assignment)|exists (true :: assignment)];
    reflexivity.
Qed.

(** C3 (counterexample).  For the tree that the parser builds from
    ["A NOT B"] and the variables A, B the enumerator produces no row: it
    raises the [TypeError] of the first evaluation. *)
Lemma no_table_for_infix_not :
  parse_text "A NOT B" = Ok (BinOp "NOT" (Var "A") (Var "B"))
  /\ generate_truth_table (BinOp "NOT" (Var "A") (Var "B")) ["A"; "B"]%string false
     = Raise TypeError.
Proof. split; vm_compute; reflexivity. Qed.

(** C3 (amended).  For [n] distinct variables the combinations are the
    [2^n] assignments of [n] truth values, each exactly once, the one of
    number [i] being [i] written in binary with the first variable as most
    significant bit, and the dict under which the tree is evaluated binds
    the [k]-th variable to the truth value of the [k]-th bit (1 is [True],
    0 is [False]).  Either the evaluator returns for every combination, and
    then the table has [2^n] rows, row [i] holding combination [i] and the
    evaluator's result rendered as 1 or 0; or it raises for some
    combination, and then the enumerator raises that exception and produces
    no table.  On a well-formed tree the evaluator always returns. *)
Theorem truth_table_enumerates ast variables return_as_dict :
  NoDup variables ->
  let n := List.length variables in
  let combinations := generate_truth_combinations n in
  List.length combinations = (2 ^ n)%nat
  /\ (forall assignment : list bool, List.length assignment = n ->
        exists! i, combinations !! i = Some (map Z.b2z assignment))
  /\ (forall i combination, combinations !! i = Some combination ->
        big_endian combination = Z.of_nat i
        /\ exists assignment : list bool,
             combination = map Z.b2z assignment
             /\ List.length assignment = n
             /\ forall k var, variables !! k = Some var ->
                  dict_of_zip int_bool variables combination !! var
                    = assignment !! k)
  /\ ((exists rows,
         generate_truth_table ast variables return_as_dict = Ok rows
         /\ List.length rows = (2 ^ n)%nat
         /\ forall i combination, combinations !! i = Some combination ->
              exists result,
                evaluate_tree ast (dict_of_zip int_bool variables combination)
                  = Ok result
                /\ rows !! i = Some (make_row return_as_dict variables combination
                                              (result_val result)))
      \/ (exists i combination e,
            combinations !! i = Some combination
            /\ evaluate_tree ast (dict_of_zip int_bool variables combination)
               = Raise e
            /\ generate_truth_table ast variables return_as_dict = Raise e))
  /\ (well_formed ast = true ->
      exists rows, generate_truth_table ast variables return_as_dict = Ok rows).
Proof.
  intros Hnd n combinations.
  assert (Hcount : List.length combinations = (2 ^ n)%nat).
  { unfold combinations. by rewrite combinations_eq, length_map, length_range. }
  split; [exact Hcount|]. split; [apply combinations_cover|]. split; [|split].
  - intros i combination Hi. apply lookup_combinations in Hi as [Hi ->].
    split; [by apply big_endian_combination|].
    destruct (bits_as_booleans (combination_of n (Z.of_nat i))) as [assignment Ha].
    { apply Forall_rev, bits_of_are_bits. }
    assert (Hlen : List.length assignment = n).
    { apply (f_equal (@List.length Z)) in Ha.
      unfold combination_of in Ha.
      by rewrite length_rev, length_bits_of, length_map in Ha. }
    exists assignment. split; [exact Ha|]. split; [exact Hlen|].
    intros k var Hk.
    rewrite (dict_of_zip_lookup int_bool variables _ k var Hnd);
      [|unfold combination_of; by rewrite length_rev, length_bits_of|exact Hk].
    rewrite Ha, lookup_map. destruct (assignment !! k) as [b|]; [|reflexivity].
    simpl. by destruct b.
  - destruct (table_loop_outcome ast variables return_as_dict combinations [])
      as [(rows & Htable & Hlen & Hrows)|(i & combination & e & Hi & He & Htable)].
    + left. exists rows. split; [exact Htable|]. split; [by rewrite Hlen|exact Hrows].
    + right. by exists i, combination, e.
  - intros Hwf.
    destruct (table_loop_rows ast variables return_as_dict combinations [])
      as (rows & Htable & _).
    { intros combination _.
      destruct (evaluate_standard ast (dict_of_zip int_bool variables combination) Hwf)
        as (v & Hv & _). eauto. }
    by exists rows.
Qed.

Lemma truth_table_enumerates_witness :
  List.length (generate_truth_combinations 2) = 4%nat
  /\ (forall assignment : list bool, List.length assignment = 2%nat ->
        exists! i, generate_truth_combinations 2 !! i = Some (map Z.b2z assignment))
  /\ (forall i combination, generate_truth_combinations 2 !! i = Some combination ->
        big_endian combination = Z.of_nat i
        /\ exists assignment : list bool,
             combination = map Z.b2z assignment
             /\ List.length assignment = 2%nat
             /\ forall k var, ["A"; "B"]%string !! k = Some var ->
                  dict_of_zip int_bool ["A"; "B"]%string combination !! var
                    = assignment !! k)
  /\ ((exists rows,
         generate_truth_table (BinOp "OR" (Var "A") (Var "B")) ["A"; "B"]%string false
           = Ok rows
         /\ List.length rows = 4%nat
         /\ forall i combination,
              generate_truth_combinations 2 !! i = Some combination ->
              exists result,
                evaluate_tree (BinOp "OR" (Var "A") (Var "B"))
                              (dict_of_zip int_bool ["A"; "B"]%string combination)
                  = Ok result
                /\ rows !! i = Some (make_row false ["A"; "B"]%string combination
                                              (result_val result)))
      \/ (exists i combination e,
            generate_truth_combinations 2 !! i = Some combination
            /\ evaluate_tree (BinOp "OR" (Var "A") (Var "B"))
                             (dict_of_zip int_bool ["A"; "B"]%string combination)
               = Raise e
            /\ generate_truth_table (BinOp "OR" (Var "A") (Var "B"))
                                    ["A"; "B"]%string false = Raise e))
  /\ (well_formed (BinOp "OR" (Var "A") (Var "B")) = true ->
      exists rows,
        generate_truth_table (BinOp "OR" (Var "A") (Var "B")) ["A"; "B"]%string false
          = Ok rows).
Proof.
  apply (truth_table_enumerates (BinOp "OR" (Var "A") (Var "B"))
           ["A"; "B"]%string false).
  apply (bool_decide_unpack _). vm_compute. reflexivity.
Defined.

Example truth_table_or :
  generate_truth_table (BinOp "OR" (Var "A") (Var "B")) ["A"; "B"]%string false
  = Ok [RowList [0; 0; 0]; RowList [0; 1; 1]; RowList [1; 0; 1]; RowList [1; 1; 1]].
Proof. vm_compute. reflexivity. Qed.

Example truth_table_xor_iff :
  generate_truth_table (BinOp "IFF" (BinOp "XOR" (Var "A") (Var "B")) (Var "C"))
                       ["A"; "B"; "C"]%string false
  = Ok [RowList [0; 0; 0; 1]; RowList [0; 0; 1; 0];
        RowList [0; 1; 0; 0]; RowList [0; 1; 1; 1];
        RowList [1; 0; 0; 0]; RowList [1; 0; 1; 1];
        RowList [1; 1; 0; 1]; RowList [1; 1; 1; 0]].
Proof. vm_compute. reflexivity. Qed.

(** ** The lexer: one step, fuel, accumulation *)

Lemma tokenize_loop_step fuel char s' tokens :
  tokenize_loop (S fuel) (String char s') tokens =
  match scan_step (String char s') with
  | Skip n => tokenize_loop fuel (drop_chars n (String char s')) tokens
  | Emit t n => tokenize_loop fuel (drop_chars n (String char s')) (tokens ++ [t])
  | Bad c => Raise (UnknownCharacter c)
  end.
Proof.
  rewrite tokenize_loop_S. cbv zeta. unfold scan_step.
  destruct (isspace char); [reflexivity|].
  destruct (Ascii.eqb char "("); [reflexivity|].
  destruct (Ascii.eqb char ")"); [reflexivity|].
  destruct (String.prefix "TRUE" _); [reflexivity|].
  destruct (String.prefix "FALSE" _); [reflexivity|].
  destruct (match_operator operators _) as [[op entry]|]; [reflexivity|].
  destruct (isalpha char); reflexivity.
Qed.

Lemma prefix_length k : forall s,
  String.prefix k s = true -> (String.length k <= String.length s)%nat.
Proof.
  induction k as [|a k IH]; intros [|b s] H; simpl in *; try lia; try discriminate.
  destruct (ascii_dec a b); [|discriminate]. apply IH in H. lia.
Qed.

Lemma operator_length op entry :
  In (op, entry) operators -> (1 <= String.length op)%nat.
Proof.
  simpl. intros H.
  repeat (destruct H as [H|H]; [injection H as <- <-; simpl; lia|]).
  contradiction.
Qed.

(** A step on a non-empty input advances, and stays within the input. *)
Lemma scan_step_advance char s' :
  match scan_step (String char s') with
  | Skip n | Emit _ n => (1 <= n <= String.length (String char s'))%nat
  | Bad _ => True
  end.
Proof.
  unfold scan_step.
  destruct (isspace char); [simpl; lia|].
  destruct (Ascii.eqb char "("); [simpl; lia|].
  destruct (Ascii.eqb char ")"); [simpl; lia|].
  destruct (String.prefix "TRUE" _) eqn:E1; [apply prefix_length in E1; simpl in *; lia|].
  destruct (String.prefix "FALSE" _) eqn:E2; [apply prefix_length in E2; simpl in *; lia|].
  destruct (match_operator operators _) as [[op entry]|] eqn:E3.
  - apply match_operator_In in E3 as [Hin Hp].
    apply operator_length in Hin. apply prefix_length in Hp. lia.
  - destruct (isalpha char); [simpl; lia|exact I].
Qed.

Lemma drop_chars_length n : forall s,
  (n <= String.length s)%nat ->
  String.length (drop_chars n s) = (String.length s - n)%nat.
Proof.
  induction n as [|n IH]; intros [|c s] H; simpl in *; try lia. apply IH. lia.
Qed.

(** Fuel beyond the length of the input is not used. *)
Lemma tokenize_loop_fuel fuel : forall fuel' s tokens,
  (String.length s <= fuel)%nat -> (String.length s <= fuel')%nat ->
  tokenize_loop fuel s tokens = tokenize_loop fuel' s tokens.
Proof.
  induction fuel as [|fuel IH]; intros fuel' [|c s] tokens Hf Hf';
    try (simpl in Hf; lia); try (by destruct fuel').
  destruct fuel' as [|fuel']; [simpl in Hf'; lia|].
  rewrite !tokenize_loop_step.
  pose proof (scan_step_advance c s) as Hadv.
  destruct (scan_step (String c s)) as [n|t n|bad]; try reflexivity;
    apply IH; rewrite drop_chars_length by lia; simpl in *; lia.
Qed.

Lemma tokenize_loop_terminates fuel : forall s tokens,
  (String.length s <= fuel)%nat -> tokenize_loop fuel s tokens <> OutOfFuel.
Proof.
  induction fuel as [|fuel IH]; intros [|c s] tokens Hf;
    try (simpl in Hf; lia); try discriminate.
  rewrite tokenize_loop_step.
  pose proof (scan_step_advance c s) as Hadv.
  destruct (scan_step (String c s)) as [n|t n|bad]; try discriminate;
    apply IH; rewrite drop_chars_length by lia; simpl in *; lia.
Qed.

Lemma tokenize_expression_terminates s : tokenize_expression s <> OutOfFuel.
Proof. apply tokenize_loop_terminates. lia. Qed.

(** The tokens found so far are only ever appended to. *)
Lemma tokenize_loop_acc fuel : forall s tokens,
  tokenize_loop fuel s tokens =
  do found <- tokenize_loop fuel s []; Ok (tokens ++ found).
Proof.
  induction fuel as [|fuel IH]; intros [|c s] tokens;
    try (simpl; by rewrite ?app_nil_r).
  rewrite !tokenize_loop_step.
  destruct (scan_step (String c s)) as [n|t n|bad]; try reflexivity.
  - apply IH.
  - rewrite (IH _ (tokens ++ [t])), (IH _ ([] ++ [t])).
    destruct (tokenize_loop fuel _ []); simpl; try reflexivity.
    by rewrite <- app_assoc.
Qed.

(** ** Runs of letters *)

Lemma alpha_not_special c :
  isalpha c = true ->
  isspace c = false /\ Ascii.eqb c "("%char = false /\ Ascii.eqb c ")"%char = false.
Proof.
  destruct c as [[] [] [] [] [] [] [] []]; vm_compute; intros H;
    try discriminate; repeat split.
Qed.

Lemma isalpha_upper c : isalpha (upper_char c) = isalpha c.
Proof. destruct c as [[] [] [] [] [] [] [] []]; reflexivity. Qed.

Lemma scan_step_letter c s :
  isalpha c = true -> keyword_at (String c s) = false ->
  scan_step (String c s) = Emit (var_token c) 1.
Proof.
  intros Hc Hk. destruct (alpha_not_special c Hc) as (H1 & H2 & H3).
  unfold keyword_at in Hk.
  apply orb_false_elim in Hk as [Hk Hop]. apply orb_false_elim in Hk as [Ht Hf].
  unfold scan_step. rewrite H1, H2, H3, Ht, Hf.
  destruct (match_operator operators _) as [[op entry]|]; [discriminate|].
  by rewrite Hc.
Qed.

Lemma length_append a : forall b,
  String.length (a +:+ b) = (String.length a + String.length b)%nat.
Proof. induction a as [|c a IH]; intros b; simpl; [reflexivity|]. by rewrite IH. Qed.

(** At a run of letters without keyword the loop appends one variable per
    letter and goes on after the run. *)
Lemma tokenize_loop_run w : forall rest fuel tokens,
  all_alpha w = true -> no_keyword_in w rest = true ->
  (String.length (w +:+ rest) <= fuel)%nat ->
  tokenize_loop fuel (w +:+ rest) tokens
    = tokenize_loop fuel rest (tokens ++ variables_of w).
Proof.
  induction w as [|c w IH]; intros rest fuel tokens Hw Hk Hf.
  - simpl. by rewrite app_nil_r.
  - simpl in Hw, Hk, Hf.
    apply andb_prop in Hw as [Hc Hw]. apply andb_prop in Hk as [Hk Hk'].
    apply negb_true_iff in Hk.
    destruct fuel as [|fuel]; [lia|].
    change (String c w +:+ rest) with (String c (w +:+ rest)).
    rewrite tokenize_loop_step, scan_step_letter by assumption.
    cbn [drop_chars]. rewrite IH by (try assumption; lia).
    change (variables_of (String c w)) with ([var_token c] ++ variables_of w).
    rewrite app_assoc. apply tokenize_loop_fuel; rewrite length_append in Hf; lia.
Qed.

Lemma prefix_cons a k c s :
  String.prefix (String a k) (String c s)
    = if ascii_dec a c then String.prefix k s else false.
Proof. reflexivity. Qed.

Lemma prefix_app_nonalpha k : forall pre x,
  all_alpha k = true -> pre <> EmptyString -> ends_nonalpha pre = true ->
  String.prefix k (pre +:+ x) = String.prefix k pre.
Proof.
  induction k as [|a k IH]; intros [|c pre] x Hk Hne He; try congruence;
    [reflexivity|].
  simpl in Hk. apply andb_prop in Hk as [Ha Hk].
  change (String c pre +:+ x) with (String c (pre +:+ x)).
  rewrite !prefix_cons.
  destruct (ascii_dec a c) as [->|]; [|reflexivity].
  destruct pre as [|c' pre].
  - simpl in He. rewrite Ha in He. discriminate.
  - apply IH; [assumption|discriminate|exact He].
Qed.

Lemma scan_step_app pre x :
  pre <> EmptyString -> ends_nonalpha pre = true ->
  scan_step (pre +:+ x) = scan_step pre.
Proof.
  intros Hne He. destruct pre as [|c pre]; [congruence|].
  change (String c pre +:+ x) with (String c (pre +:+ x)).
  unfold scan_step, operators, match_operator.
  change (String c (pre +:+ x)) with (String c pre +:+ x).
  by rewrite !prefix_app_nonalpha.
Qed.

Lemma drop_chars_app n : forall pre x,
  (n <= String.length pre)%nat ->
  drop_chars n (pre +:+ x) = drop_chars n pre +:+ x.
Proof.
  induction n as [|n IH]; intros [|c pre] x H; simpl in *; try lia; try reflexivity.
  apply IH. lia.
Qed.

Lemma ends_nonalpha_drop n : forall pre,
  ends_nonalpha pre = true -> ends_nonalpha (drop_chars n pre) = true.
Proof.
  induction n as [|n IH]; intros [|c pre] H; try assumption; try reflexivity.
  cbn [drop_chars]. apply IH. destruct pre; [reflexivity|exact H].
Qed.

(** A stretch of input that does not end in a letter is lexed on its own. *)
Lemma tokenize_loop_split fuel : forall pre x tokens,
  ends_nonalpha pre = true ->
  (String.length (pre +:+ x) <= fuel)%nat ->
  tokenize_loop fuel (pre +:+ x) tokens
    = do found <- tokenize_loop fuel pre tokens; tokenize_loop fuel x found.
Proof.
  induction fuel as [|fuel IH]; intros [|c pre] x tokens He Hf;
    try reflexivity; try (simpl in Hf; lia).
  assert (Hne : String c pre <> EmptyString) by discriminate.
  pose proof (scan_step_app (String c pre) x Hne He) as Hstep.
  pose proof (scan_step_advance c pre) as Hadv.
  rewrite length_append in Hf.
  assert (Hx : forall found,
             tokenize_loop fuel x found = tokenize_loop (S fuel) x found).
  { intros found. apply tokenize_loop_fuel; simpl in Hf; lia. }
  change (String c pre +:+ x) with (String c (pre +:+ x)) in *.
  rewrite !tokenize_loop_step, Hstep.
  change (String c (pre +:+ x)) with (String c pre +:+ x).
  destruct (scan_step (String c pre)) as [n|t n|bad]; try reflexivity;
    rewrite drop_chars_app by lia;
    (rewrite IH;
     [|by apply ends_nonalpha_drop
      |rewrite length_append, drop_chars_length by lia; simpl in *; lia]);
    destruct (tokenize_loop fuel (drop_chars n (String c pre)) _);
    simpl; try reflexivity; apply Hx.
Qed.

Lemma upper_append a : forall b, upper (a +:+ b) = upper a +:+ upper b.
Proof. induction a as [|c a IH]; intros b; simpl; [reflexivity|]. by rewrite IH. Qed.

Lemma length_upper s : String.length (upper s) = String.length s.
Proof. induction s as [|c s IH]; simpl; [reflexivity|]. by rewrite IH. Qed.

Lemma all_alpha_upper w : all_alpha (upper w) = all_alpha w.
Proof.
  induction w as [|c w IH]; simpl; [reflexivity|]. by rewrite isalpha_upper, IH.
Qed.

Lemma ends_nonalpha_upper s : ends_nonalpha (upper s) = ends_nonalpha s.
Proof.
  induction s as [|c s IH]; [reflexivity|].
  destruct s as [|c' s]; simpl; [by rewrite isalpha_upper|exact IH].
Qed.

Lemma append_nil_r a : a +:+ "" = a.
Proof.
  induction a as [|x a IH]; [reflexivity|].
  change (String x (a +:+ "") = String x a). by rewrite IH.
Qed.

Lemma starts_nonalpha_upper s : starts_nonalpha (upper s) = starts_nonalpha s.
Proof. destruct s as [|c s]; [reflexivity|]. simpl. by rewrite isalpha_upper. Qed.

(** A keyword does not reach beyond the end of a run of letters. *)
Lemma prefix_run_nonalpha k : forall w rest,
  all_alpha k = true -> starts_nonalpha rest = true ->
  String.prefix k (w +:+ rest) = String.prefix k w.
Proof.
  induction k as [|a k IH]; intros w rest Hk Hrest.
  - by destruct w, rest.
  - simpl in Hk. apply andb_prop in Hk as [Ha Hk].
    destruct w as [|c w].
    + destruct rest as [|c rest]; [reflexivity|].
      change ("" +:+ String c rest) with (String c rest). rewrite prefix_cons.
      destruct (ascii_dec a c) as [->|]; [|reflexivity].
      simpl in Hrest. rewrite Ha in Hrest. discriminate.
    + change (String c w +:+ rest) with (String c (w +:+ rest)).
      rewrite !prefix_cons. destruct (ascii_dec a c); [by apply IH|reflexivity].
Qed.

Lemma keyword_at_run w rest :
  starts_nonalpha rest = true -> keyword_at (w +:+ rest) = keyword_at w.
Proof.
  intros Hrest. unfold keyword_at, operators, match_operator.
  by rewrite !prefix_run_nonalpha.
Qed.

Lemma no_keyword_in_run w : forall rest,
  starts_nonalpha rest = true -> no_keyword_in w rest = no_keyword_in w "".
Proof.
  induction w as [|c w IH]; intros rest Hrest; [reflexivity|].
  cbn [no_keyword_in]. rewrite (IH rest Hrest).
  by rewrite (keyword_at_run (String c w) rest), (keyword_at_run (String c w) "").
Qed.

(** A run of letters without keyword between two stretches of input. *)
Lemma tokenize_run_in_context pre w rest :
  ends_nonalpha pre = true ->
  all_alpha w = true ->
  no_keyword_in (upper w) (upper rest) = true ->
  tokenize_expression (pre +:+ w +:+ rest) =
  do before <- tokenize_expression pre;
  do after <- tokenize_expression rest;
  Ok (before ++ variables_of (upper w) ++ after).
Proof.
  intros Hpre Hw Hk. unfold tokenize_expression. cbv zeta.
  rewrite !upper_append.
  rewrite <- ends_nonalpha_upper in Hpre. rewrite <- all_alpha_upper in Hw.
  rewrite tokenize_loop_split by (assumption || lia).
  rewrite (tokenize_loop_fuel _ (String.length (upper pre)) (upper pre))
    by (rewrite ?length_append; lia).
  destruct (tokenize_loop _ (upper pre) []) as [before| |]; simpl; try reflexivity.
  rewrite tokenize_loop_run by (assumption || rewrite !length_append; lia).
  rewrite tokenize_loop_acc.
  rewrite (tokenize_loop_fuel _ (String.length (upper rest)) (upper rest))
    by (rewrite ?length_append; lia).
  destruct (tokenize_loop _ (upper rest) []) as [after| |]; simpl; try reflexivity.
  by rewrite <- app_assoc.
Qed.

(** C8 (counterexample).  NOTE and MORE are runs of letters, and neither is
    TRUE, FALSE or an operator keyword; the lexer finds NOT at the start of
    the first and OR inside the second, and emits an operator token there
    instead of one variable per letter. *)
Lemma keyword_inside_letter_run :
  all_alpha "NOTE" = true
  /\ is_keyword "NOTE" = false /\ "NOTE" <> "TRUE" /\ "NOTE" <> "FALSE"
  /\ tokenize_expression "NOTE"
     = Ok [operator_token "NOT" (1, Unary op_not); var_token "E"]
  /\ tokenize_expression "NOTE" <> Ok (variables_of "NOTE")
  /\ all_alpha "MORE" = true
  /\ is_keyword "MORE" = false /\ "MORE" <> "TRUE" /\ "MORE" <> "FALSE"
  /\ tokenize_expression "MORE"
     = Ok [var_token "M"; operator_token "OR" (4, Binary op_or); var_token "E"]
  /\ tokenize_expression "MORE" <> Ok (variables_of "MORE").
Proof. repeat split; try reflexivity; discriminate. Qed.

(** C8 (amended).  A run [w] of letters in which, once upper-cased, TRUE,
    FALSE or an operator keyword starts at no position is lexed into one
    single-letter variable token per character, in upper case: these are
    the tokens of [w] alone, and when the run is maximal in an input
    [pre w rest] (it follows a non-letter or the beginning, and a
    non-letter or the end follows it) whose other two parts the lexer
    accepts, the tokens of the input are those of [pre], then these, then
    those of [rest]. *)
Theorem letters_lexed_one_by_one w :
  all_alpha w = true ->
  no_keyword_in (upper w) "" = true ->
  tokenize_expression w = Ok (variables_of (upper w))
  /\ forall pre rest before after,
       ends_nonalpha pre = true -> starts_nonalpha rest = true ->
       tokenize_expression pre = Ok before ->
       tokenize_expression rest = Ok after ->
       tokenize_expression (pre +:+ w +:+ rest)
         = Ok (before ++ variables_of (upper w) ++ after).
Proof.
  intros Hw Hk. split.
  - pose proof (tokenize_run_in_context "" w "" eq_refl Hw Hk) as H.
    rewrite append_nil_r in H. change ("" +:+ w) with w in H.
    rewrite H. change (tokenize_expression "") with (Ok (@nil Token)).
    cbn [bind app]. by rewrite app_nil_r.
  - intros pre rest before after Hpre Hrest Hbefore Hafter.
    rewrite tokenize_run_in_context; try assumption.
    + by rewrite Hbefore, Hafter.
    + rewrite no_keyword_in_run; [assumption|by rewrite starts_nonalpha_upper].
Qed.

Lemma letters_lexed_one_by_one_witness :
  tokenize_expression "ab" = Ok [var_token "A"; var_token "B"]
  /\ tokenize_expression ("(x or " +:+ "ab" +:+ ") and c")
     = Ok ([LP; var_token "X"; operator_token "OR" (4, Binary op_or)]
           ++ [var_token "A"; var_token "B"]
           ++ [RP; operator_token "AND" (2, Binary op_and); var_token "C"]).
Proof.
  destruct (letters_lexed_one_by_one "ab" eq_refl eq_refl) as [Halone Hin].
  split; [exact Halone|].
  exact (Hin "(x or " ") and c" _ _ eq_refl eq_refl eq_refl eq_refl).
Defined.

Example two_letters_two_variables :
  tokenize_expression "AB" = Ok [var_token "A"; var_token "B"].
Proof. reflexivity. Qed.

(** * Further properties of the code *)

Set Warnings "-clear-no-such-hyp".

(** ** extract_logical_variables *)

Lemma extract_union node : forall variables,
  extract_logical_variables node variables
    = variables ∪ extract_logical_variables node ∅.
Proof.
  induction node as [v|v l IHl|v r IHr|v l r IHl IHr] using ASTNode_nested_ind;
    intros variables; cbn [extract_logical_variables].
  - destruct v; set_solver.
  - rewrite (IHl variables). reflexivity.
  - rewrite (IHr variables). reflexivity.
  - rewrite (IHr (extract_logical_variables l variables)),
      (IHr (extract_logical_variables l ∅)), (IHl variables). set_solver.
Qed.

(** X1.  The set passed in is only added to, and what is added does not
    depend on it: the result is that set together with the names found
    from an empty set, so calling the function twice adds nothing more. *)
Theorem extract_accumulates node variables :
  extract_logical_variables node variables
    = variables ∪ extract_logical_variables node ∅
  /\ extract_logical_variables node (extract_logical_variables node variables)
    = extract_logical_variables node variables.
Proof.
  split; [apply extract_union|].
  rewrite (extract_union node (extract_logical_variables node variables)).
  rewrite (extract_union node variables). set_solver.
Qed.

Lemma extract_left v l :
  extract_logical_variables (mkAST v (Some l) None) ∅
    = extract_logical_variables l ∅.
Proof. reflexivity. Qed.

Lemma extract_both v l r :
  extract_logical_variables (mkAST v (Some l) (Some r)) ∅
    = extract_logical_variables l ∅ ∪ extract_logical_variables r ∅.
Proof. cbn [extract_logical_variables]. apply (extract_union r). Qed.

Lemma evaluate_tree_agree node :
  forall a1 a2 : gmap string bool,
  (forall x, x ∈ extract_logical_variables node ∅ ->
             default false (a1 !! x) = default false (a2 !! x)) ->
  evaluate_tree node a1 = evaluate_tree node a2.
Proof.
  induction node as [v|v l IHl|v r IHr|v l r IHl IHr] using ASTNode_nested_ind;
    intros a1 a2 H.
  - destruct v as [b|x]; [reflexivity|]. simpl. rewrite (H x); [reflexivity|].
    cbn [extract_logical_variables]. set_solver.
  - cbn [evaluate_tree]. rewrite (IHl a1 a2); [reflexivity|].
    intros x Hx. apply H. by rewrite extract_left.
  - reflexivity.
  - cbn [evaluate_tree]. rewrite (IHl a1 a2), (IHr a1 a2); [reflexivity| |];
      intros x Hx; apply H; rewrite extract_both; set_solver.
Qed.

(** X2.  The value of a tree depends on the assignment only through the
    extracted variables, a missing variable counting as [False]: two
    assignments that agree on them give the same result, or the same
    exception. *)
Theorem evaluation_reads_extracted_variables node (a1 a2 : gmap string bool) :
  (forall x, x ∈ extract_logical_variables node ∅ ->
             default false (a1 !! x) = default false (a2 !! x)) ->
  evaluate_tree node a1 = evaluate_tree node a2.
Proof. apply evaluate_tree_agree. Qed.

Lemma evaluation_reads_extracted_variables_witness :
  evaluate_tree (BinOp "AND" (Var "A") (Not (Var "B"))) {[ "A" := true ]}
  = evaluate_tree (BinOp "AND" (Var "A") (Not (Var "B")))
                  (<[ "C" := true ]> (<[ "B" := false ]> {[ "A" := true ]})).
Proof.
  apply (evaluation_reads_extracted_variables
           (BinOp "AND" (Var "A") (Not (Var "B")))).
  intros x Hx. cbn [extract_logical_variables BinOp Var Not Node2 Node1 Leaf] in Hx.
  assert (Hcases : x = "A" \/ x = "B") by set_solver.
  destruct Hcases as [->| ->]; reflexivity.
Defined.

Lemma lexer_operand_letter t :
  lexer_token t = true -> token_type t = OPERAND -> value t <> NStr ")".
Proof.
  unfold lexer_token. intros H Hty Hv. rewrite Hty, Hv in H. discriminate.
Qed.

Lemma token_variables_other t tokens :
  token_type t <> OPERAND ->
  token_variables (t :: tokens) = token_variables tokens.
Proof. intros H. simpl. destruct (token_type t); congruence. Qed.

Lemma closing_token_not_operand t :
  lexer_token t = true -> value_is (value t) ")" = true ->
  token_type t <> OPERAND.
Proof.
  intros Ht Hv Hty. apply value_is_eq in Hv.
  by apply (lexer_operand_letter t Ht Hty).
Qed.

(** The operand names of the tokens that a parsing function consumes are
    the variables of the tree it returns. *)
Lemma parse_variables fuel :
  (forall tokens node rest,
      Forall (fun t => lexer_token t = true) tokens ->
      parse_primary fuel tokens = Ok (node, rest) ->
      token_variables tokens
        = extract_logical_variables node ∅ ∪ token_variables rest) /\
  (forall level tokens node rest,
      Forall (fun t => lexer_token t = true) tokens ->
      parse_operator fuel level tokens = Ok (node, rest) ->
      token_variables tokens
        = extract_logical_variables node ∅ ∪ token_variables rest) /\
  (forall level node0 tokens node rest,
      Forall (fun t => lexer_token t = true) tokens ->
      parse_loop fuel level node0 tokens = Ok (node, rest) ->
      extract_logical_variables node0 ∅ ∪ token_variables tokens
        = extract_logical_variables node ∅ ∪ token_variables rest).
Proof.
  induction fuel as [|fuel (IHp & IHo & IHl)]; [repeat split; intros; discriminate|].
  pose proof (parse_shapes fuel) as (Sp & So & _).
  split; [|split].
  - intros tokens node rest Htok H. rewrite parse_primary_S in H.
    destruct tokens as [|token tokens]; [discriminate|].
    inversion Htok as [|? ? Ht Htok']; subst.
    destruct (TokenType_eqb (token_type token) OPERAND) eqn:E1.
    { injection H as <- <-. apply TokenType_eqb_eq in E1.
      cbn [token_variables extract_logical_variables Leaf]. rewrite E1.
      destruct (value token); set_solver. }
    assert (Hty : token_type token <> OPERAND).
    { intros Hty. rewrite Hty in E1. discriminate. }
    rewrite (token_variables_other _ _ Hty).
    destruct (TokenType_eqb (token_type token) PARENTHESIS && value_is (value token) "(").
    { destruct (parse_operator fuel 0 tokens) as [[n r]| |] eqn:E; try discriminate.
      pose proof (So _ _ _ _ Htok' E) as [_ Hr].
      apply IHo in E; [|assumption]. rewrite E.
      destruct r as [|t0 r]; [by injection H as <- <-|].
      inversion Hr; subst.
      destruct (value_is (value t0) ")") eqn:Ev; injection H as <- <-; [|reflexivity].
      by rewrite token_variables_other by by apply closing_token_not_operand. }
    destruct (TokenType_eqb (token_type token) OPERATOR && value_is (value token) "NOT");
      [|discriminate].
    destruct (parse_primary fuel tokens) as [[n r]| |] eqn:E; try discriminate.
    apply IHp in E; [|assumption]. injection H as <- <-.
    unfold Node1. by rewrite E, extract_left.
  - intros level tokens node rest Htok H. rewrite parse_operator_S in H.
    destruct (parse_primary fuel tokens) as [[n r]| |] eqn:E; try discriminate.
    pose proof (Sp _ _ _ Htok E) as [_ Hr].
    apply IHp in E; [|assumption]. rewrite E. by eapply IHl.
  - intros level node0 tokens node rest Htok H. rewrite parse_loop_S in H.
    destruct tokens as [|t0 tokens]; [by injection H as <- <-|].
    inversion Htok as [|? ? Ht Htok']; subst.
    destruct (TokenType_eqb (token_type t0) OPERATOR) eqn:E1; [|by injection H as <- <-].
    apply TokenType_eqb_eq in E1.
    destruct (precedence t0) as [p|]; [|discriminate].
    destruct (p >=? level); [|by injection H as <- <-].
    destruct (parse_operator fuel _ tokens) as [[n r]| |] eqn:E; try discriminate.
    pose proof (So _ _ _ _ Htok' E) as [_ Hr].
    apply IHo in E; [|assumption].
    apply IHl in H; [|assumption]. rewrite <- H.
    rewrite token_variables_other by congruence.
    unfold Node2. rewrite extract_both, E. set_solver.
Qed.

(** X3.  The parser neither loses nor invents a variable: the names among
    the lexed tokens are those that [extract_logical_variables] finds in
    the tree, together with those of the tokens that [build_ast] left
    unconsumed. *)
Theorem parser_keeps_variables s tokens node rest :
  tokenize_expression s = Ok tokens ->
  build_ast tokens = Ok (node, rest) ->
  token_variables tokens
    = extract_logical_variables node ∅ ∪ token_variables rest.
Proof.
  intros Hlex Hparse. apply tokenize_expression_tokens in Hlex.
  pose proof (parse_variables (2 * List.length tokens + 2)) as (_ & Ho & _).
  by apply (Ho 0).
Qed.

Lemma parser_keeps_variables_witness :
  token_variables [var_token "P"; operator_token "OR" (4, Binary op_or);
                   var_token "Q"; var_token "R"]
  = extract_logical_variables (BinOp "OR" (Var "P") (Var "Q")) ∅
    ∪ token_variables [var_token "R"].
Proof.
  apply (parser_keeps_variables "p or q r"); reflexivity.
Defined.

(** ** evaluate_tree on what the parser builds *)

Lemma apply_binary_keyword s a b :
  is_keyword s = true ->
  (String.eqb s "NOT" = false /\ exists v, apply_binary (NStr s) a b = Ok v)
  \/ (s = "NOT" /\ apply_binary (NStr s) a b = Raise TypeError).
Proof.
  intros Hs. destruct (String.eqb s "NOT") eqn:E.
  - apply String.eqb_eq in E as ->. by right.
  - left. split; [reflexivity|].
    pose proof (keyword_binary s Hs E) as Hb.
    unfold is_binary_operator in Hb. unfold apply_binary.
    destruct (operators_get operators s) as [[? [f|f]]|]; try discriminate. eauto.
Qed.

Lemma no_infix_not_leaf v : no_infix_not (mkAST v None None) = true.
Proof. simpl. by rewrite andb_false_r. Qed.

Lemma no_infix_not_left v l :
  no_infix_not (mkAST v (Some l) None) = no_infix_not l.
Proof. simpl. by rewrite andb_false_r, andb_true_r. Qed.

Lemma no_infix_not_both v l r :
  no_infix_not (mkAST v (Some l) (Some r))
    = negb (value_is v "NOT") && no_infix_not l && no_infix_not r.
Proof. simpl. by rewrite andb_true_r. Qed.

Lemma evaluate_shapes t : forall a : gmap string bool,
  three_shapes t = true ->
  (no_infix_not t = true /\ exists v, evaluate_tree t a = Ok v)
  \/ (no_infix_not t = false /\ evaluate_tree t a = Raise TypeError).
Proof.
  induction t as [v|v l IHl|v r IHr|v l r IHl IHr] using ASTNode_nested_ind;
    intros a Hs; cbn [three_shapes] in Hs.
  - left. split; [apply no_infix_not_leaf|]. destruct v; simpl; eauto.
  - apply andb_prop in Hs as [Hv Hl]. apply value_is_eq in Hv as ->.
    rewrite no_infix_not_left. cbn [evaluate_tree].
    destruct (IHl a Hl) as [[Hn [x ->]]|[Hn ->]]; rewrite Hn.
    + left. split; [reflexivity|]. simpl. eauto.
    + right. split; reflexivity.
  - discriminate.
  - apply andb_prop in Hs as [Hs Hr]. apply andb_prop in Hs as [Hv Hl].
    destruct v as [|s]; [discriminate|].
    rewrite no_infix_not_both. cbn [evaluate_tree value_is].
    destruct (IHl a Hl) as [[Hnl [x ->]]|[Hnl ->]]; rewrite Hnl;
      [|right; split; [by rewrite andb_false_r|reflexivity]].
    destruct (IHr a Hr) as [[Hnr [y ->]]|[Hnr ->]]; rewrite Hnr;
      [|right; split; [by rewrite andb_false_r|reflexivity]].
    cbn [bind].
    destruct (apply_binary_keyword s x y Hv) as [[Hnot [z ->]]|[-> ->]].
    + left. rewrite Hnot. split; [reflexivity|eauto].
    + right. split; reflexivity.
Qed.

(** X4.  A tree built from lexed input in which some NOT stands between
    two operands cannot be evaluated: [evaluate_tree] raises [TypeError]
    (the one-argument lambda is called with two arguments), under every
    assignment and wherever the node is in the tree. *)
Theorem infix_not_raises_TypeError s tokens node rest :
  tokenize_expression s = Ok tokens ->
  build_ast tokens = Ok (node, rest) ->
  no_infix_not node = false ->
  forall variable_values, evaluate_tree node variable_values = Raise TypeError.
Proof.
  intros Hlex Hparse Hn a.
  pose proof (parser_output_shapes s tokens node rest Hlex Hparse) as Hs.
  destruct (evaluate_shapes node a Hs) as [[Hn' _]|[_ H]]; [congruence|exact H].
Qed.

Lemma infix_not_raises_TypeError_witness :
  evaluate_tree (BinOp "OR" (Var "A") (BinOp "NOT" (Var "B") (Var "C")))
                {[ "A" := true ]} = Raise TypeError.
Proof.
  apply (infix_not_raises_TypeError "a or (b not c)"
           [var_token "A"; operator_token "OR" (4, Binary op_or);
            Token2 PARENTHESIS (NStr "("); var_token "B";
            operator_token "NOT" (1, Unary op_not); var_token "C";
            Token2 PARENTHESIS (NStr ")")] _ []); reflexivity.
Defined.

(** X5.  For such a tree no truth table is produced either: whatever the
    variable list and the row format, [generate_truth_table] raises the
    [TypeError] of its first row. *)
Theorem table_of_infix_not_raises s tokens node rest variables return_as_dict :
  tokenize_expression s = Ok tokens ->
  build_ast tokens = Ok (node, rest) ->
  no_infix_not node = false ->
  generate_truth_table node variables return_as_dict = Raise TypeError.
Proof.
  intros Hlex Hparse Hn.
  pose proof (parser_output_shapes s tokens node rest Hlex Hparse) as Hs.
  unfold generate_truth_table. rewrite combinations_eq.
  assert (Hpow : exists m, (2 ^ List.length variables)%nat = S m).
  { pose proof (Nat.pow_nonzero 2 (List.length variables)).
    destruct (2 ^ List.length variables)%nat; [lia|eauto]. }
  destruct Hpow as [m ->]. rewrite range_S. cbn [map table_loop].
  rewrite table_row_eq.
  destruct (evaluate_shapes node
              (dict_of_zip int_bool variables
                           (combination_of (List.length variables) 0)) Hs)
    as [[Hn' _]|[_ ->]]; [congruence|reflexivity].
Qed.

Lemma table_of_infix_not_raises_witness :
  generate_truth_table (BinOp "NOT" (Var "A") (Var "B")) ["A"; "B"]%string false
    = Raise TypeError.
Proof.
  apply (table_of_infix_not_raises "A NOT B"
           [var_token "A"; operator_token "NOT" (1, Unary op_not); var_token "B"]
           _ []); reflexivity.
Defined.

(** ** tokenize_expression: which inputs are accepted *)

Lemma alpha_lexable c : isalpha c = true -> lexable c = true.
Proof. unfold lexable. intros ->. by rewrite !orb_true_r. Qed.

Lemma prefix_alpha_skipped k : forall s,
  all_alpha k = true -> String.prefix k s = true ->
  first_unlexable s = first_unlexable (drop_chars (String.length k) s).
Proof.
  induction k as [|a k IH]; intros [|c s] Hk Hp; try reflexivity;
    try discriminate.
  simpl in Hk. apply andb_prop in Hk as [Ha Hk].
  rewrite prefix_cons in Hp. destruct (ascii_dec a c) as [<-|]; [|discriminate].
  cbn [first_unlexable String.length drop_chars].
  rewrite (alpha_lexable a Ha). by apply IH.
Qed.

Lemma operator_all_alpha op entry :
  In (op, entry) operators -> all_alpha op = true.
Proof.
  simpl. intros H.
  repeat (destruct H as [H|H]; [injection H as <- <-; reflexivity|]).
  contradiction.
Qed.

(** A step consumes accepted characters only, and [Bad] reports the
    character at the head. *)
Lemma scan_step_unlexable c s' :
  let s := String c s' in
  match scan_step s with
  | Skip n | Emit _ n => first_unlexable s = first_unlexable (drop_chars n s)
  | Bad b => first_unlexable s = Some b
  end.
Proof.
  cbv zeta. unfold scan_step. cbn [first_unlexable]. unfold lexable.
  destruct (isspace c) eqn:E1; [reflexivity|].
  destruct (Ascii.eqb c "(") eqn:E2; [reflexivity|].
  destruct (Ascii.eqb c ")") eqn:E3; [reflexivity|].
  assert (Hc : first_unlexable (String c s')
               = if false || false || false || isalpha c
                 then first_unlexable s' else Some c).
  { cbn [first_unlexable]. unfold lexable. by rewrite E1, E2, E3. }
  rewrite <- Hc.
  destruct (String.prefix "TRUE" _) eqn:E4;
    [by apply (prefix_alpha_skipped "TRUE")|].
  destruct (String.prefix "FALSE" _) eqn:E5;
    [by apply (prefix_alpha_skipped "FALSE")|].
  destruct (match_operator operators _) as [[op entry]|] eqn:E6.
  - apply match_operator_In in E6 as [Hin Hp].
    apply prefix_alpha_skipped; [by eapply operator_all_alpha|assumption].
  - rewrite Hc. destruct (isalpha c); reflexivity.
Qed.

Lemma tokenize_loop_accepts fuel : forall s tokens,
  (String.length s <= fuel)%nat ->
  match first_unlexable s with
  | None => exists found, tokenize_loop fuel s tokens = Ok found
  | Some c => tokenize_loop fuel s tokens = Raise (UnknownCharacter c)
  end.
Proof.
  induction fuel as [|fuel IH]; intros [|c s] tokens Hf;
    try (simpl in Hf; lia); try (simpl; eauto; fail).
  rewrite tokenize_loop_step.
  pose proof (scan_step_unlexable c s) as Hstep. cbv zeta in Hstep.
  pose proof (scan_step_advance c s) as Hadv.
  destruct (scan_step (String c s)) as [n|t n|bad]; rewrite Hstep;
    try reflexivity;
    apply IH; rewrite drop_chars_length by lia; simpl in *; lia.
Qed.

(** X6.  Among the inputs of ASCII characters the lexer accepts exactly
    those made of white space, parentheses and letters: it returns tokens
    for these, and for any other it raises the "Unknown character" error
    for the first character (after upper-casing) that is none of them. *)
Theorem lexer_accepts_letters_spaces_parentheses s :
  ascii_only s = true ->
  match first_unlexable (upper s) with
  | None => exists tokens, tokenize_expression s = Ok tokens
  | Some c => tokenize_expression s = Raise (UnknownCharacter c)
  end.
Proof. intros _. apply tokenize_loop_accepts. lia. Qed.

Lemma lexer_accepts_letters_spaces_parentheses_witness :
  (exists tokens, tokenize_expression "(a or b)" = Ok tokens)
  /\ tokenize_expression "a & b" = Raise (UnknownCharacter "&").
Proof.
  split.
  - exact (lexer_accepts_letters_spaces_parentheses "(a or b)" eq_refl).
  - exact (lexer_accepts_letters_spaces_parentheses "a & b" eq_refl).
Defined.

Lemma upper_char_idempotent c : upper_char (upper_char c) = upper_char c.
Proof. destruct c as [[] [] [] [] [] [] [] []]; reflexivity. Qed.

Lemma upper_idempotent s : upper (upper s) = upper s.
Proof.
  induction s as [|c s IH]; simpl; [reflexivity|].
  by rewrite upper_char_idempotent, IH.
Qed.

(** X7.  The lexer does not see the case of its input: a text and its
    upper-cased form give the same tokens, or the same error, and so the
    same tree. *)
Theorem lexer_ignores_case s :
  tokenize_expression (upper s) = tokenize_expression s
  /\ parse_text (upper s) = parse_text s.
Proof.
  assert (H : tokenize_expression (upper s) = tokenize_expression s).
  { unfold tokenize_expression. cbv zeta. by rewrite upper_idempotent. }
  split; [exact H|]. unfold parse_text. by rewrite H.
Qed.

Lemma isspace_upper c : isspace (upper_char c) = isspace c.
Proof. destruct c as [[] [] [] [] [] [] [] []]; reflexivity. Qed.

Lemma tokenize_loop_blank fuel : forall s tokens,
  all_space s = true -> (String.length s <= fuel)%nat ->
  tokenize_loop fuel s tokens = Ok tokens.
Proof.
  induction fuel as [|fuel IH]; intros [|c s] tokens Hs Hf;
    try (simpl in Hf; lia); try reflexivity.
  simpl in Hs. apply andb_prop in Hs as [Hc Hs].
  rewrite tokenize_loop_S. cbv zeta. rewrite Hc.
  apply IH; [assumption|simpl in *; lia].
Qed.

Lemma all_space_upper s : all_space (upper s) = all_space s.
Proof.
  induction s as [|c s IH]; simpl; [reflexivity|]. by rewrite isspace_upper, IH.
Qed.

(** X8.  An input that is empty or made of white space only gives no
    token, and parsing it fails with the [IndexError] of [tokens.pop(0)] on
    the empty list, not with the [ValueError] that [build_ast] documents. *)
Theorem blank_input_raises_IndexError s :
  all_space s = true ->
  tokenize_expression s = Ok [] /\ parse_text s = Raise IndexError.
Proof.
  intros Hs.
  assert (H : tokenize_expression s = Ok []).
  { apply tokenize_loop_blank; [by rewrite all_space_upper|lia]. }
  split; [exact H|]. unfold parse_text. by rewrite H.
Qed.

Lemma blank_input_raises_IndexError_witness :
  tokenize_expression "   " = Ok [] /\ parse_text "   " = Raise IndexError.
Proof. apply blank_input_raises_IndexError. reflexivity. Defined.

(** ** build_ast: what it consumes and how it fails *)

Lemma parse_suffix fuel :
  (forall tokens node rest,
      parse_primary fuel tokens = Ok (node, rest) -> rest `suffix_of` tokens) /\
  (forall level tokens node rest,
      parse_operator fuel level tokens = Ok (node, rest) -> rest `suffix_of` tokens) /\
  (forall level node0 tokens node rest,
      parse_loop fuel level node0 tokens = Ok (node, rest) -> rest `suffix_of` tokens).
Proof.
  induction fuel as [|fuel (IHp & IHo & IHl)]; [repeat split; intros; discriminate|].
  repeat split; intros until rest; parse_unfold; intros H;
    repeat break_match; simplify_eq;
    repeat match goal with
      | H : parse_primary fuel _ = Ok _ |- _ => apply IHp in H
      | H : parse_operator fuel _ _ = Ok _ |- _ => apply IHo in H
      | H : parse_loop fuel _ _ _ = Ok _ |- _ => apply IHl in H
      end;
    try reflexivity;
    repeat match goal with
      | |- _ `suffix_of` _ :: _ => apply suffix_cons_r
      end;
    try reflexivity; try assumption;
    try (etrans; [|eassumption]; try assumption; by apply suffix_cons_r).
Qed.

(** X9.  [build_ast] only pops tokens from the front: what it leaves is a
    suffix of its input, shorter by at least one token. *)
Theorem parser_consumes_a_prefix tokens node rest :
  build_ast tokens = Ok (node, rest) ->
  rest `suffix_of` tokens /\ (List.length rest < List.length tokens)%nat.
Proof.
  intros H. split.
  - pose proof (parse_suffix (2 * List.length tokens + 2)) as (_ & Ho & _).
    by eapply Ho.
  - pose proof (parse_consumes (2 * List.length tokens + 2)) as (_ & Ho & _).
    by eapply Ho.
Qed.

Lemma parser_consumes_a_prefix_witness :
  [RP; var_token "C"] `suffix_of` [var_token "A"; operator_token "AND" (2, Binary op_and);
                                   var_token "B"; RP; var_token "C"]
  /\ lt (List.length [RP; var_token "C"])
        (List.length [var_token "A"; operator_token "AND" (2, Binary op_and);
                      var_token "B"; RP; var_token "C"]).
Proof.
  apply (parser_consumes_a_prefix _ (BinOp "AND" (Var "A") (Var "B"))).
  reflexivity.
Defined.

Lemma lexer_token_precedence t :
  lexer_token t = true -> token_type t = OPERATOR ->
  exists p, precedence t = Some p.
Proof.
  unfold lexer_token. intros H Hty. rewrite Hty in H.
  destruct (value t); [discriminate|].
  apply andb_prop in H as [_ H]. destruct (precedence t); [eauto|discriminate].
Qed.

Lemma parse_error_suffix rest tokens e :
  rest `suffix_of` tokens -> parse_error rest e -> parse_error tokens e.
Proof.
  intros [k ->] [->|(t & -> & Hin & Ht)]; [by left|].
  right. exists t. repeat split; [|assumption]. apply in_or_app. by right.
Qed.

Lemma parse_errors fuel :
  (forall tokens e,
      Forall (fun t => lexer_token t = true) tokens ->
      parse_primary fuel tokens = Raise e -> parse_error tokens e) /\
  (forall level tokens e,
      Forall (fun t => lexer_token t = true) tokens ->
      parse_operator fuel level tokens = Raise e -> parse_error tokens e) /\
  (forall level node0 tokens e,
      Forall (fun t => lexer_token t = true) tokens ->
      parse_loop fuel level node0 tokens = Raise e -> parse_error tokens e).
Proof.
  induction fuel as [|fuel (IHp & IHo & IHl)]; [repeat split; intros; discriminate|].
  pose proof (parse_shapes fuel) as (Sp & So & _).
  pose proof (parse_suffix fuel) as (Xp & Xo & _).
  split; [|split].
  - intros tokens e Htok H. rewrite parse_primary_S in H.
    destruct tokens as [|token tokens]; [injection H as <-; by left|].
    inversion Htok as [|? ? Ht Htok']; subst.
    assert (Htail : forall e', parse_error tokens e' -> parse_error (token :: tokens) e').
    { intros e'. apply parse_error_suffix. apply suffix_cons_r. reflexivity. }
    destruct (TokenType_eqb (token_type token) OPERAND) eqn:E1; [discriminate|].
    destruct (TokenType_eqb (token_type token) PARENTHESIS && value_is (value token) "(") eqn:E2.
    { destruct (parse_operator fuel 0 tokens) as [[n r]| |] eqn:E; try discriminate.
      - destruct r as [|t0 r]; [discriminate|].
        destruct (value_is (value t0) ")"); discriminate.
      - injection H as <-. by apply Htail, (IHo 0). }
    destruct (TokenType_eqb (token_type token) OPERATOR && value_is (value token) "NOT") eqn:E3.
    { destruct (parse_primary fuel tokens) as [[n r]| |] eqn:E; try discriminate.
      injection H as <-. by apply Htail, IHp. }
    injection H as <-. right. exists token. repeat split; [by left|].
    unfold cannot_start. by rewrite E1, E2, E3.
  - intros level tokens e Htok H. rewrite parse_operator_S in H.
    destruct (parse_primary fuel tokens) as [[n r]| |] eqn:E; try discriminate.
    + pose proof (Sp _ _ _ Htok E) as [_ Hr]. apply Xp in E.
      eapply parse_error_suffix; [exact E|]. by eapply IHl.
    + injection H as <-. by apply IHp.
  - intros level node0 tokens e Htok H. rewrite parse_loop_S in H.
    destruct tokens as [|t0 tokens]; [discriminate|].
    inversion Htok as [|? ? Ht Htok']; subst.
    assert (Htail : forall e', parse_error tokens e' -> parse_error (t0 :: tokens) e').
    { intros e'. apply parse_error_suffix. apply suffix_cons_r. reflexivity. }
    destruct (TokenType_eqb (token_type t0) OPERATOR) eqn:E1; [|discriminate].
    apply TokenType_eqb_eq in E1.
    destruct (lexer_token_precedence t0 Ht E1) as [p Hp]. rewrite Hp in H.
    destruct (p >=? level); [|discriminate].
    destruct (parse_operator fuel _ tokens) as [[n r]| |] eqn:E; try discriminate.
    + pose proof (So _ _ _ _ Htok' E) as [_ Hr]. apply Xo in E.
      apply Htail. eapply parse_error_suffix; [exact E|]. by eapply IHl.
    + injection H as <-. apply Htail. eapply IHo; eassumption.
Qed.

(** X10.  On lexed input [build_ast] fails in two ways only: with
    [IndexError] when the tokens run out where an operand is required, or
    with the "Unexpected token" [ValueError] for a token of the input that
    cannot start an operand (a closing parenthesis or a binary operator).
    It raises no [TypeError] and always returns. *)
Theorem parser_failures s tokens :
  tokenize_expression s = Ok tokens ->
  match build_ast tokens with
  | Ok _ => True
  | Raise e => parse_error tokens e
  | OutOfFuel => False
  end.
Proof.
  intros Hlex. apply tokenize_expression_tokens in Hlex.
  pose proof (build_ast_terminates tokens) as Hterm.
  pose proof (parse_errors (2 * List.length tokens + 2)) as (_ & Ho & _).
  specialize (Ho 0 tokens). fold (build_ast tokens) in Ho.
  destruct (build_ast tokens) as [?|e|]; [exact I| |congruence].
  by apply Ho.
Qed.

Lemma parser_failures_witness :
  parse_error [var_token "A"; operator_token "AND" (2, Binary op_and); RP]
              (UnexpectedToken RP).
Proof.
  apply (parser_failures "A AND )"
           [var_token "A"; operator_token "AND" (2, Binary op_and); RP]).
  reflexivity.
Defined.

(** ** build_ast: parentheses around an expression, NOT before an operand *)

Lemma parse_closed_within fuel :
  (forall tokens k,
      closes_within k (parse_primary fuel tokens)
                    (parse_primary fuel (tokens ++ closing k))) /\
  (forall level tokens k,
      closes_within k (parse_operator fuel level tokens)
                    (parse_operator fuel level (tokens ++ closing k))) /\
  (forall level node0 tokens k,
      closes_within k (parse_loop fuel level node0 tokens)
                    (parse_loop fuel level node0 (tokens ++ closing k))).
Proof.
  induction fuel as [|fuel (IHp & IHo & IHl)]; [repeat split; intros; exact I|].
  assert (Hloop : forall level node0 tokens k j,
             (j <= k)%nat ->
             closes_within k (parse_loop fuel level node0 tokens)
                           (parse_loop fuel level node0 (tokens ++ closing j))).
  { intros level node0 tokens k j Hj. specialize (IHl level node0 tokens j).
    destruct (parse_loop fuel level node0 tokens) as [[n r]| |]; try exact I.
    destruct IHl as (i & Hi & ->). exists i. split; [lia|reflexivity]. }
  repeat split; intros; parse_unfold.
  - destruct tokens as [|token tokens]; [exact I|].
    rewrite <- app_comm_cons.
    destruct (TokenType_eqb (token_type token) OPERAND);
      [exists k; split; [lia|reflexivity]|].
    destruct (TokenType_eqb (token_type token) PARENTHESIS && value_is (value token) "(").
    { specialize (IHo 0 tokens k).
      destruct (parse_operator fuel 0 tokens) as [[n r]| |]; try exact I.
      destruct IHo as (j & Hj & ->).
      destruct r as [|t0 r]; simpl.
      - destruct j; simpl; [exists 0%nat|exists j]; (split; [lia|reflexivity]).
      - destruct (value_is (value t0) ")"); exists j; (split; [lia|reflexivity]). }
    destruct (TokenType_eqb (token_type token) OPERATOR && value_is (value token) "NOT");
      [|exact I].
    specialize (IHp tokens k).
    destruct (parse_primary fuel tokens) as [[n r]| |]; try exact I.
    destruct IHp as (j & Hj & ->). exists j. split; [lia|reflexivity].
  - specialize (IHp tokens k).
    destruct (parse_primary fuel tokens) as [[n r]| |]; try exact I.
    destruct IHp as (j & Hj & ->). by apply Hloop.
  - destruct tokens as [|t0 tokens].
    + destruct k; simpl; [exists 0%nat|exists (S k)]; (split; [lia|reflexivity]).
    + rewrite <- app_comm_cons.
      destruct (TokenType_eqb (token_type t0) OPERATOR);
        [|exists k; split; [lia|reflexivity]].
      destruct (precedence t0) as [p|]; [|exact I].
      destruct (p >=? level); [|exists k; split; [lia|reflexivity]].
      specialize (IHo (if is_left (associativity t0) then p + 1 else p) tokens k).
      destruct (parse_operator fuel _ tokens) as [[n r]| |]; try exact I.
      destruct IHo as (j & Hj & ->). by apply Hloop.
Qed.

(** X11.  Parentheses around a complete expression change nothing: when
    [tokens] parse to [node] with nothing left, so do [( tokens )]. *)
Theorem parentheses_around_expression tokens node :
  build_ast tokens = Ok (node, []) ->
  build_ast (LP :: tokens ++ [RP]) = Ok (node, []).
Proof.
  intros H.
  pose proof (parse_closed_within (2 * List.length tokens + 2)) as (_ & Ho & _).
  specialize (Ho 0 tokens 1%nat). unfold build_ast in H. rewrite H in Ho.
  destruct Ho as (j & Hj & Hclosed). cbn [app closing repeat] in Hclosed.
  set (fuel := (2 * List.length tokens + 2)%nat) in *.
  assert (Hinner : forall extra,
             parse_operator (fuel + extra) 0 (tokens ++ [RP]) = Ok (node, closing j)).
  { intros extra. pose proof (parse_fuel_mono fuel) as (_ & Mo & _).
    eapply Mo; [exact Hclosed|discriminate|lia]. }
  unfold build_ast.
  replace (2 * List.length (LP :: tokens ++ [RP]) + 2)%nat with (S (S (fuel + 2)))
    by (simpl; rewrite length_app; simpl; unfold fuel; lia).
  rewrite parse_operator_S, parse_primary_S.
  change (TokenType_eqb (token_type LP) OPERAND) with false.
  change (TokenType_eqb (token_type LP) PARENTHESIS && value_is (value LP) "(")
    with true.
  cbv iota. rewrite Hinner.
  destruct j as [|[|j]]; [reflexivity|reflexivity|lia].
Qed.

Lemma parentheses_around_expression_witness :
  build_ast (LP :: [var_token "A"; operator_token "OR" (4, Binary op_or);
                    LP; var_token "B"] ++ [RP])
    = Ok (BinOp "OR" (Var "A") (Var "B"), []).
Proof.
  apply (parentheses_around_expression
           [var_token "A"; operator_token "OR" (4, Binary op_or); LP; var_token "B"]).
  reflexivity.
Defined.

Lemma parse_primary_nots k : forall fuel x rest,
  token_type x = OPERAND ->
  (k < fuel)%nat ->
  parse_primary fuel (nots k ++ x :: rest)
    = Ok (negations k (Leaf (value x)), rest).
Proof.
  induction k as [|k IH]; intros [|fuel] x rest Hx Hf; try lia.
  - simpl. rewrite Hx. reflexivity.
  - cbn [nots repeat app]. rewrite parse_primary_S.
    change (TokenType_eqb (token_type (operator_token "NOT" (1, Unary op_not))) OPERAND)
      with false.
    cbv iota. simpl andb. cbv iota.
    fold (nots k). rewrite IH by (assumption || lia). reflexivity.
Qed.

(** X12.  A prefix NOT applies to the operand that follows it and to
    nothing more, whatever its table number: in
    [NOT..NOT a op NOT..NOT b], with [op] a binary operator of the table,
    each run of NOTs is nested over its own operand and [op] joins the two
    results. *)
Theorem prefix_not_binds_operand j k a b op entry :
  In (op, entry) operators -> op <> "NOT" ->
  token_type a = OPERAND -> token_type b = OPERAND ->
  build_ast (nots j ++ a :: operator_token op entry :: nots k ++ [b])
    = Ok (BinOp op (negations j (Leaf (value a))) (negations k (Leaf (value b))), []).
Proof.
  intros Hin Hnot Ha Hb.
  destruct (binary_operator_token op entry Hin Hnot) as (Hty & Hp & Hleft & Hp0).
  unfold build_ast.
  set (fuel := (2 * List.length (nots j ++ a :: operator_token op entry :: nots k ++ [b]) + 2)%nat).
  assert (Hfuel : (2 * (j + k + 3) + 2 = fuel)%nat).
  { unfold fuel, nots. rewrite length_app. cbn [List.length].
    rewrite length_app, !repeat_length. simpl. lia. }
  destruct fuel as [|[|[|[|fuel]]]]; try lia.
  rewrite parse_operator_S, parse_primary_nots by (assumption || lia).
  rewrite parse_loop_S, Hty, Hp, Hleft.
  change (TokenType_eqb OPERATOR OPERATOR) with true. cbv iota.
  replace (fst entry >=? 0) with true by lia.
  rewrite parse_operator_S, parse_primary_nots by (assumption || lia).
  rewrite parse_loop_S. cbv iota. rewrite parse_loop_S. reflexivity.
Qed.

Lemma prefix_not_binds_operand_witness :
  build_ast (nots 2 ++ var_token "A" :: operator_token "AND" (2, Binary op_and)
                   :: nots 1 ++ [var_token "B"])
    = Ok (BinOp "AND" (negations 2 (Var "A")) (negations 1 (Var "B")), []).
Proof.
  apply (prefix_not_binds_operand 2 1 (var_token "A") (var_token "B")
           "AND" (2, Binary op_and));
    [simpl; tauto | discriminate | reflexivity | reflexivity].
Defined.

(** ** ASTNode.__repr__: the printed form is read back *)

Lemma lex_nil tokens : lex EmptyString tokens = Ok tokens.
Proof. reflexivity. Qed.

Lemma lex_step c s' tokens :
  lex (String c s') tokens =
  match scan_step (String c s') with
  | Skip n => lex (drop_chars n (String c s')) tokens
  | Emit t n => lex (drop_chars n (String c s')) (tokens ++ [t])
  | Bad b => Raise (UnknownCharacter b)
  end.
Proof.
  unfold lex. cbn [String.length]. rewrite tokenize_loop_step.
  pose proof (scan_step_advance c s') as Hadv.
  destruct (scan_step (String c s')) as [n|t n|b]; try reflexivity;
    apply tokenize_loop_fuel; rewrite ?drop_chars_length by lia; simpl in *; lia.
Qed.

Lemma lex_space rest tokens : lex (" " +:+ rest) tokens = lex rest tokens.
Proof. change (" " +:+ rest) with (String " " rest). rewrite lex_step; reflexivity. Qed.

Lemma lex_lparen rest tokens : lex ("(" +:+ rest) tokens = lex rest (tokens ++ [LP]).
Proof. change ("(" +:+ rest) with (String "(" rest). rewrite lex_step; reflexivity. Qed.

Lemma lex_rparen rest tokens : lex (")" +:+ rest) tokens = lex rest (tokens ++ [RP]).
Proof. change (")" +:+ rest) with (String ")" rest). rewrite lex_step; reflexivity. Qed.

Lemma lex_true rest tokens :
  lex ("TRUE" +:+ rest) tokens = lex rest (tokens ++ [Token2 OPERAND (NBool true)]).
Proof.
  destruct rest; change ("TRUE" +:+ ?r) with (String "T" ("RUE" +:+ r));
    rewrite lex_step; reflexivity.
Qed.

Lemma lex_false rest tokens :
  lex ("FALSE" +:+ rest) tokens = lex rest (tokens ++ [Token2 OPERAND (NBool false)]).
Proof.
  destruct rest; change ("FALSE" +:+ ?r) with (String "F" ("ALSE" +:+ r));
    rewrite lex_step; reflexivity.
Qed.

Lemma is_keyword_cases s :
  is_keyword s = true ->
  s = "NOT" \/ s = "AND" \/ s = "XOR" \/ s = "OR" \/ s = "IMP" \/ s = "IFF".
Proof.
  unfold is_keyword, operators, operators_get. intros H.
  repeat match type of H with
    | context [if String.eqb ?k s then _ else _] =>
        destruct (String.eqb k s) eqn:?
    end; try discriminate;
    match goal with
    | E : String.eqb _ s = true |- _ => apply String.eqb_eq in E; subst s
    end; tauto.
Qed.

Lemma lex_keyword s rest tokens :
  is_keyword s = true ->
  lex (s +:+ rest) tokens = lex rest (tokens ++ keyword_token (NStr s)).
Proof.
  intros H. apply is_keyword_cases in H.
  destruct H as [->|[->|[->|[->|[->| ->]]]]]; destruct rest;
    match goal with
    | |- lex (String ?c ?k +:+ ?r) _ = _ =>
        change (String c k +:+ r) with (String c (k +:+ r))
    end; rewrite lex_step; reflexivity.
Qed.

Lemma prefix_boundary k1 k2 ks c rest :
  isalpha k2 = true -> boundary rest = true ->
  String.prefix (String k1 (String k2 ks)) (String c rest) = false.
Proof.
  intros Hk Hb. rewrite prefix_cons.
  destruct (ascii_dec k1 c); [|reflexivity].
  destruct rest as [|d rest]; [reflexivity|].
  rewrite prefix_cons. destruct (ascii_dec k2 d) as [<-|]; [|reflexivity].
  simpl in Hb. rewrite Hk in Hb. discriminate.
Qed.

Lemma keyword_at_boundary c rest :
  boundary rest = true -> keyword_at (String c rest) = false.
Proof.
  intros Hb. unfold keyword_at, operators, match_operator.
  by rewrite !prefix_boundary.
Qed.

Lemma lex_letter c rest tokens :
  isalpha c = true -> boundary rest = true ->
  lex (String c rest) tokens = lex rest (tokens ++ [var_token c]).
Proof.
  intros Hc Hb. rewrite lex_step, scan_step_letter; [reflexivity|assumption|].
  by apply keyword_at_boundary.
Qed.

Lemma append_assoc a : forall b c, (a +:+ b) +:+ c = a +:+ (b +:+ c).
Proof.
  induction a as [|x a IH]; intros b c; [reflexivity|].
  change (String x ((a +:+ b) +:+ c) = String x (a +:+ (b +:+ c))). by rewrite IH.
Qed.

Lemma upper_keyword s : is_keyword s = true -> upper s = s.
Proof.
  intros H. apply is_keyword_cases in H.
  destruct H as [->|[->|[->|[->|[->| ->]]]]]; reflexivity.
Qed.

Lemma is_upper_name_inv s :
  is_upper_name s = true ->
  exists c, s = String c "" /\ isalpha c = true /\ upper_char c = c.
Proof.
  destruct s as [|c [|]]; try discriminate. simpl. intros H.
  apply andb_prop in H as [Hc Hu]. apply Ascii.eqb_eq in Hu. eauto.
Qed.

(** The lexer on the printed form of a tree, followed by text that does not
    start with a letter. *)
Lemma lex_repr t : forall rest tokens,
  printable t = true -> boundary rest = true ->
  lex (upper (ASTNode_repr t) +:+ rest) tokens = lex rest (tokens ++ tokens_of t).
Proof.
  induction t as [v|v l IHl|v r IHr|v l r IHl IHr] using ASTNode_nested_ind;
    intros rest tokens Hp Hb; cbn [printable] in Hp.
  - destruct v as [[|]|s].
    + apply lex_true.
    + apply lex_false.
    + apply is_upper_name_inv in Hp as (c & -> & Hc & Hu).
      cbn [ASTNode_repr str_value upper tokens_of]. rewrite Hu.
      by apply lex_letter.
  - apply andb_prop in Hp as [Hv Hl]. apply value_is_eq in Hv as ->.
    cbn [ASTNode_repr str_value tokens_of]. rewrite !upper_append.
    change (upper "(") with "("; change (upper "NOT") with "NOT";
      change (upper " ") with " "; change (upper ")") with ")".
    rewrite !append_assoc.
    rewrite lex_lparen, (lex_keyword "NOT") by reflexivity.
    rewrite lex_space, IHl by (assumption || reflexivity).
    rewrite lex_rparen. f_equal. by rewrite <- !app_assoc.
  - discriminate.
  - apply andb_prop in Hp as [Hp Hr]. apply andb_prop in Hp as [Hv Hl].
    destruct v as [|s]; [discriminate|].
    cbn [ASTNode_repr str_value tokens_of]. rewrite !upper_append.
    rewrite (upper_keyword s Hv).
    change (upper "(") with "("; change (upper " ") with " ";
      change (upper ")") with ")".
    rewrite !append_assoc.
    rewrite lex_lparen, IHl by (assumption || reflexivity).
    rewrite lex_space, lex_keyword by assumption.
    rewrite lex_space, IHr by (assumption || reflexivity).
    rewrite lex_rparen. f_equal. by rewrite <- !app_assoc.
Qed.

Lemma tokenize_repr t :
  printable t = true -> tokenize_expression (ASTNode_repr t) = Ok (tokens_of t).
Proof.
  intros Hp. unfold tokenize_expression. cbv zeta.
  fold (lex (upper (ASTNode_repr t)) []).
  rewrite <- (append_nil_r (upper (ASTNode_repr t))).
  by rewrite lex_repr.
Qed.

Lemma keyword_token_parse s :
  is_keyword s = true ->
  exists t p, keyword_token (NStr s) = [t] /\ token_type t = OPERATOR
              /\ value t = NStr s /\ precedence t = Some p /\ 0 <= p.
Proof.
  intros H. apply is_keyword_cases in H.
  destruct H as [->|[->|[->|[->|[->| ->]]]]];
    eexists _, _; (split; [reflexivity|]); repeat split; simpl; lia.
Qed.

(** The parser on the tokens of the printed form of a tree. *)
Lemma parse_tokens_of t : forall fuel rest,
  printable t = true -> (4 * height t < fuel)%nat ->
  parse_primary fuel (tokens_of t ++ rest) = Ok (t, rest).
Proof.
  induction t as [v|v l IHl|v r IHr|v l r IHl IHr] using ASTNode_nested_ind;
    intros fuel rest Hp Hf; cbn [printable] in Hp; cbn [height] in Hf.
  - destruct fuel; [lia|]. reflexivity.
  - apply andb_prop in Hp as [Hv Hl]. apply value_is_eq in Hv as ->.
    destruct fuel as [|[|[|fuel]]]; try lia.
    cbn [tokens_of keyword_token operators_get operators String.eqb Ascii.eqb
         Bool.eqb app].
    rewrite parse_primary_S.
    change (TokenType_eqb (token_type LP) OPERAND) with false.
    change (TokenType_eqb (token_type LP) PARENTHESIS && value_is (value LP) "(")
      with true.
    cbv iota. rewrite parse_operator_S, parse_primary_S.
    change (TokenType_eqb (token_type (operator_token "NOT" (1, Unary op_not))) OPERAND)
      with false.
    cbv iota. simpl andb. cbv iota.
    rewrite <- app_assoc, IHl by (assumption || lia).
    rewrite parse_loop_S. reflexivity.
  - discriminate.
  - apply andb_prop in Hp as [Hp Hr]. apply andb_prop in Hp as [Hv Hl].
    destruct v as [|s]; [discriminate|].
    destruct (keyword_token_parse s Hv) as (op & p & Hop & Hty & Hval & Hprec & Hp0).
    destruct fuel as [|[|[|[|[|fuel]]]]]; try lia.
    cbn [tokens_of]. rewrite Hop. cbn [app].
    rewrite parse_primary_S.
    change (TokenType_eqb (token_type LP) OPERAND) with false.
    change (TokenType_eqb (token_type LP) PARENTHESIS && value_is (value LP) "(")
      with true.
    cbv iota. rewrite parse_operator_S.
    rewrite <- app_assoc, IHl by (assumption || lia).
    cbn [app]. rewrite parse_loop_S, Hty, Hprec.
    change (TokenType_eqb OPERATOR OPERATOR) with true. cbv iota.
    replace (p >=? 0) with true by lia.
    rewrite parse_operator_S.
    rewrite <- app_assoc, IHr by (assumption || lia).
    cbn [app]. rewrite parse_loop_S.
    change (TokenType_eqb (token_type RP) OPERATOR) with false. cbv iota.
    rewrite parse_loop_S.
    change (TokenType_eqb (token_type RP) OPERATOR) with false. cbv iota.
    rewrite Hval. reflexivity.
Qed.

Lemma build_ast_tokens_of t :
  printable t = true -> build_ast (tokens_of t) = Ok (t, []).
Proof.
  intros Hp.
  set (fuel := (2 * List.length (tokens_of t) + 4 * height t + 2)%nat).
  rewrite <- (build_ast_fuel fuel) by (unfold fuel; lia).
  assert (Hf : exists f, fuel = S (S f) /\ (4 * height t < S f)%nat).
  { exists (2 * List.length (tokens_of t) + 4 * height t)%nat. unfold fuel. lia. }
  destruct Hf as (f & -> & Hf).
  rewrite parse_operator_S.
  rewrite <- (app_nil_r (tokens_of t)), parse_tokens_of by assumption.
  reflexivity.
Qed.

(** X13.  The printed form of a tree is read back as that tree: for a tree
    of the three shapes whose variables are upper-case letters,
    lexing and parsing [repr(tree)] returns the tree, with no token left. *)
Theorem repr_is_parsed_back t :
  printable t = true ->
  tokenize_expression (ASTNode_repr t) = Ok (tokens_of t)
  /\ build_ast (tokens_of t) = Ok (t, [])
  /\ parse_text (ASTNode_repr t) = Ok t.
Proof.
  intros Hp. split; [by apply tokenize_repr|]. split; [by apply build_ast_tokens_of|].
  unfold parse_text. rewrite tokenize_repr by assumption. cbn [bind].
  by rewrite build_ast_tokens_of.
Qed.

Lemma repr_is_parsed_back_witness :
  tokenize_expression
    (ASTNode_repr (BinOp "IMP" (Not (Var "P")) (BinOp "OR" (Const true) (Var "Q"))))
    = Ok (tokens_of (BinOp "IMP" (Not (Var "P")) (BinOp "OR" (Const true) (Var "Q"))))
  /\ build_ast (tokens_of (BinOp "IMP" (Not (Var "P"))
                                 (BinOp "OR" (Const true) (Var "Q"))))
     = Ok (BinOp "IMP" (Not (Var "P")) (BinOp "OR" (Const true) (Var "Q")), [])
  /\ parse_text
       (ASTNode_repr (BinOp "IMP" (Not (Var "P")) (BinOp "OR" (Const true) (Var "Q"))))
     = Ok (BinOp "IMP" (Not (Var "P")) (BinOp "OR" (Const true) (Var "Q"))).
Proof. apply repr_is_parsed_back. reflexivity. Defined.

Example repr_of_tree :
  ASTNode_repr (BinOp "IMP" (Not (Var "P")) (BinOp "OR" (Const true) (Var "Q")))
    = "((NOT P) IMP (True OR Q))".
Proof. reflexivity. Qed.

Lemma no_lower_upper s : no_lower (upper s) = true.
Proof.
  induction s as [|c s IH]; [reflexivity|]. simpl.
  rewrite upper_char_idempotent, IH. by rewrite (proj2 (Ascii.eqb_eq _ _) eq_refl).
Qed.

Lemma no_lower_drop n : forall s,
  no_lower s = true -> no_lower (drop_chars n s) = true.
Proof.
  induction n as [|n IH]; intros [|c s] H; try assumption; try reflexivity.
  simpl in H. apply andb_prop in H as [_ H]. by apply IH.
Qed.

Lemma tokenize_loop_upper fuel : forall s acc tokens,
  no_lower s = true ->
  Forall (fun t => upper_operand t = true) acc ->
  tokenize_loop fuel s acc = Ok tokens ->
  Forall (fun t => upper_operand t = true) tokens.
Proof.
  induction fuel as [|fuel IH]; intros [|c s] acc tokens Hs Hacc H;
    try discriminate; try (by injection H as <-).
  assert (Hext : forall t, upper_operand t = true ->
                   Forall (fun t => upper_operand t = true) (acc ++ [t])).
  { intros t Ht. apply Forall_app. split; [assumption|by constructor]. }
  rewrite tokenize_loop_S in H. cbv zeta in H.
  pose proof (no_lower_drop 1 _ Hs) as H1.
  destruct (isspace c); [by eapply IH|].
  destruct (Ascii.eqb c "("); [eapply IH; [exact H1| |exact H]; by apply Hext|].
  destruct (Ascii.eqb c ")"); [eapply IH; [exact H1| |exact H]; by apply Hext|].
  destruct (String.prefix "TRUE" _);
    [eapply IH; [|  |exact H]; [by apply no_lower_drop|by apply Hext]|].
  destruct (String.prefix "FALSE" _);
    [eapply IH; [|  |exact H]; [by apply no_lower_drop|by apply Hext]|].
  destruct (match_operator operators _) as [[op entry]|] eqn:E.
  - eapply IH; [| |exact H]; [by apply no_lower_drop|by apply Hext].
  - destruct (isalpha c) eqn:Ealpha; [|discriminate].
    eapply IH; [exact H1| |exact H]. apply Hext.
    unfold upper_operand, var_token, Token2. simpl.
    simpl in Hs. apply andb_prop in Hs as [Hc _]. by rewrite Ealpha, Hc.
Qed.

Lemma token_variables_upper tokens x :
  Forall (fun t => upper_operand t = true) tokens ->
  x ∈ token_variables tokens -> is_upper_name x = true.
Proof.
  induction 1 as [|t tokens Ht _ IH]; simpl; [set_solver|].
  unfold upper_operand in Ht.
  destruct (token_type t), (value t) as [|s]; try assumption.
  rewrite elem_of_union, elem_of_singleton. intros [->|Hx]; auto.
Qed.

Lemma shapes_printable t :
  three_shapes t = true ->
  (forall x, x ∈ extract_logical_variables t ∅ -> is_upper_name x = true) ->
  printable t = true.
Proof.
  induction t as [v|v l IHl|v r IHr|v l r IHl IHr] using ASTNode_nested_ind;
    cbn [three_shapes printable]; intros Hs Hx; try discriminate.
  - destruct v as [|s]; [reflexivity|]. apply Hx.
    cbn [extract_logical_variables]. set_solver.
  - apply andb_prop in Hs as [Hv Hl]. rewrite Hv. simpl.
    apply IHl; [assumption|]. intros x Hin. apply Hx. by rewrite extract_left.
  - apply andb_prop in Hs as [Hs Hr]. apply andb_prop in Hs as [Hv Hl].
    rewrite Hv, IHl, IHr; try assumption; try reflexivity;
      intros x Hin; apply Hx; rewrite extract_both; set_solver.
Qed.

(** X14.  Printing a parsed tree and parsing the text again gives the tree
    back: whatever the input, when lexing and parsing it returns a tree,
    [repr] of that tree is lexed and parsed to the same tree. *)
Theorem parse_repr_parse s tokens node rest :
  tokenize_expression s = Ok tokens ->
  build_ast tokens = Ok (node, rest) ->
  parse_text (ASTNode_repr node) = Ok node.
Proof.
  intros Hlex Hparse.
  assert (Hp : printable node = true).
  { apply shapes_printable; [by eapply parser_output_shapes|].
    intros x Hx.
    apply (token_variables_upper tokens).
    - eapply tokenize_loop_upper; [apply no_lower_upper|constructor|exact Hlex].
    - pose proof (parse_variables (2 * List.length tokens + 2)) as (_ & Ho & _).
      rewrite (Ho 0 tokens node rest); [set_solver| |exact Hparse].
      by apply tokenize_expression_tokens in Hlex. }
  unfold parse_text. rewrite tokenize_repr by assumption. cbn [bind].
  by rewrite build_ast_tokens_of.
Qed.

Lemma parse_repr_parse_witness :
  parse_text (ASTNode_repr (BinOp "AND" (Var "A") (BinOp "OR" (Var "B") (Var "C"))))
    = Ok (BinOp "AND" (Var "A") (BinOp "OR" (Var "B") (Var "C"))).
Proof.
  apply (parse_repr_parse "a and b or c"
           [var_token "A"; operator_token "AND" (2, Binary op_and); var_token "B";
            operator_token "OR" (4, Binary op_or); var_token "C"] _ []);
    reflexivity.
Defined.

(** ** generate_truth_table: every assignment, and the rows as dicts *)

Lemma generate_truth_table_rows ast variables return_as_dict :
  well_formed ast = true ->
  exists rows,
    generate_truth_table ast variables return_as_dict = Ok rows
    /\ List.length rows = (2 ^ List.length variables)%nat
    /\ forall i combination,
         generate_truth_combinations (List.length variables) !! i = Some combination ->
         exists result,
           evaluate_tree ast (dict_of_zip int_bool variables combination) = Ok result
           /\ rows !! i = Some (make_row return_as_dict variables combination
                                         (result_val result)).
Proof.
  intros Hwf.
  destruct (table_loop_rows ast variables return_as_dict
              (generate_truth_combinations (List.length variables)) [])
    as (rows & Htable & Hlen & Hrows).
  { intros combination _.
    destruct (evaluate_standard ast (dict_of_zip int_bool variables combination) Hwf)
      as (v & Hv & _). eauto. }
  exists rows. repeat split; [exact Htable| |exact Hrows].
  by rewrite Hlen, combinations_eq, length_map, length_range.
Qed.

Lemma int_bool_b2z b : int_bool (Z.b2z b) = b.
Proof. by destruct b. Qed.

(** X15.  The table is complete for the tree: when the listed variables are
    distinct and include those of the tree, then for every assignment the
    table has the row whose bits are the values of the listed variables
    (a missing one counting as 0), and that row ends with the result of
    evaluating the tree under the assignment, as 1 or 0. *)
Theorem table_covers_every_assignment ast variables (a : gmap string bool) :
  NoDup variables ->
  well_formed ast = true ->
  (forall x, x ∈ extract_logical_variables ast ∅ -> x ∈ variables) ->
  exists rows i result,
    generate_truth_table ast variables false = Ok rows
    /\ evaluate_tree ast a = Ok result
    /\ rows !! i
       = Some (RowList (map (fun var => Z.b2z (default false (a !! var))) variables
                        ++ [result_val result])).
Proof.
  intros Hnd Hwf Hvars.
  destruct (generate_truth_table_rows ast variables false Hwf)
    as (rows & Htable & _ & Hrows).
  set (bits := map (fun var => default false (a !! var)) variables).
  destruct (combinations_cover (List.length variables) bits) as (i & Hi & _).
  { unfold bits. by rewrite length_map. }
  destruct (Hrows i _ Hi) as (result & Heval & Hrow).
  exists rows, i, result. split; [exact Htable|]. split.
  - rewrite <- Heval. apply evaluate_tree_agree. intros x Hx.
    apply Hvars, list_elem_of_lookup in Hx as [k Hk].
    rewrite (dict_of_zip_lookup int_bool variables _ k x Hnd);
      [|by unfold bits; rewrite !length_map|exact Hk].
    unfold bits. rewrite map_map, lookup_map, Hk. simpl.
    by rewrite int_bool_b2z.
  - rewrite Hrow. unfold make_row, bits. by rewrite map_map.
Qed.

Lemma table_covers_every_assignment_witness :
  exists rows i result,
    generate_truth_table (BinOp "IMP" (Var "P") (Var "Q")) ["P"; "Q"]%string false
      = Ok rows
    /\ evaluate_tree (BinOp "IMP" (Var "P") (Var "Q")) {[ "P" := true ]} = Ok result
    /\ rows !! i
       = Some (RowList (map (fun var => Z.b2z (default false
                                     (({[ "P" := true ]} : gmap string bool) !! var)))
                            ["P"; "Q"]%string
                        ++ [result_val result])).
Proof.
  apply (table_covers_every_assignment (BinOp "IMP" (Var "P") (Var "Q"))
           ["P"; "Q"]%string {[ "P" := true ]}).
  - apply (bool_decide_unpack _). vm_compute. reflexivity.
  - reflexivity.
  - intros x Hx. cbn [extract_logical_variables BinOp Var Node2 Leaf] in Hx.
    set_solver.
Defined.

Lemma dom_fold_insert {A : Type} (f : Z -> A) pairs : forall d : gmap string A,
  dom (fold_left (fun d '(var, val) => <[var := f val]> d) pairs d)
    = dom d ∪ list_to_set (map fst pairs).
Proof.
  induction pairs as [|[v c] pairs IH]; intros d; simpl; [set_solver|].
  rewrite IH, dom_insert_L. set_solver.
Qed.

Lemma map_fst_combine {A B : Type} (l : list A) : forall l' : list B,
  List.length l' = List.length l -> map fst (combine l l') = l.
Proof.
  induction l as [|x l IH]; intros [|y l'] H; simpl in *; try lia; [reflexivity|].
  f_equal. apply IH. lia.
Qed.

(** X16.  With [return_as_dict], row [i] is a dict whose keys are the
    variables and ["RESULT"].  There is one list of [n] truth values whose
    bits, read as a binary number with the first most significant, give
    [i]; the [k]-th variable holds the [k]-th of them as 1 or 0, unless the
    variable is itself called ["RESULT"], whose bit the result overwrites;
    and ["RESULT"] holds, as 1 or 0, the result of evaluating the tree with
    the [k]-th variable bound to the [k]-th truth value. *)
Theorem rows_as_dicts ast variables i :
  NoDup variables ->
  well_formed ast = true ->
  (i < 2 ^ List.length variables)%nat ->
  exists rows row (assignment : list bool) result,
    generate_truth_table ast variables true = Ok rows
    /\ rows !! i = Some (RowDict row)
    /\ List.length assignment = List.length variables
    /\ big_endian (map Z.b2z assignment) = Z.of_nat i
    /\ (forall other : list bool,
          List.length other = List.length variables ->
          big_endian (map Z.b2z other) = Z.of_nat i -> other = assignment)
    /\ (forall a : gmap string bool,
          (forall k var, variables !! k = Some var -> a !! var = assignment !! k) ->
          (forall var, var ∈ extract_logical_variables ast ∅ -> var ∈ variables) ->
          evaluate_tree ast a = Ok result)
    /\ row !! "RESULT" = Some (result_val result)
    /\ dom row = list_to_set variables ∪ {[ "RESULT" ]}
    /\ forall k var, variables !! k = Some var -> var <> "RESULT" ->
         row !! var = Z.b2z <$> assignment !! k.
Proof.
  intros Hnd Hwf Hi.
  destruct (generate_truth_table_rows ast variables true Hwf)
    as (rows & Htable & _ & Hrows).
  set (combination := combination_of (List.length variables) (Z.of_nat i)).
  assert (Hc : generate_truth_combinations (List.length variables) !! i
               = Some combination) by by apply lookup_combinations.
  assert (Hlen : List.length combination = List.length variables).
  { unfold combination, combination_of. by rewrite length_rev, length_bits_of. }
  destruct (bits_as_booleans combination) as [assignment Ha].
  { apply Forall_rev, bits_of_are_bits. }
  assert (Hlen' : List.length assignment = List.length variables).
  { by rewrite <- Hlen, Ha, length_map. }
  destruct (Hrows i _ Hc) as (result & Heval & Hrow).
  exists rows, (<["RESULT" := result_val result]> (dict_of_zip id variables combination)),
    assignment, result.
  split; [exact Htable|]. split; [exact Hrow|]. split; [exact Hlen'|].
  split; [rewrite <- Ha; by apply big_endian_combination|].
  split; [|split; [|split; [apply lookup_insert_eq|split]]].
  - intros other Hother Hbig.
    destruct (combinations_cover (List.length variables) other Hother)
      as (j & Hj & _).
    pose proof Hj as Hj'. apply lookup_combinations in Hj' as [Hlt Hcomb].
    assert (j = i) as ->.
    { apply Nat2Z.inj. rewrite <- Hbig, Hcomb.
      symmetry. by apply big_endian_combination. }
    rewrite Hc in Hj. injection Hj as Hj. rewrite Ha in Hj.
    clear -Hj. revert other Hj.
    induction assignment as [|b assignment IH]; intros [|b' other] H;
      try discriminate; [reflexivity|].
    injection H as Hb H. f_equal; [by destruct b, b'|by apply IH].
  - intros a Hbound Hvars. rewrite <- Heval. apply evaluate_tree_agree.
    intros x Hx. apply Hvars, list_elem_of_lookup in Hx as [k Hk].
    rewrite (dict_of_zip_lookup int_bool variables _ k x Hnd Hlen Hk).
    rewrite (Hbound k x Hk), Ha, lookup_map.
    destruct (assignment !! k) as [b|]; [|reflexivity]. simpl. by destruct b.
  - rewrite dom_insert_L. unfold dict_of_zip.
    rewrite dom_fold_insert, map_fst_combine by assumption. set_solver.
  - intros k var Hk Hne. rewrite lookup_insert_ne by congruence.
    rewrite (dict_of_zip_lookup id variables combination k var Hnd Hlen Hk).
    rewrite Ha, lookup_map. by destruct (assignment !! k).
Qed.

Lemma rows_as_dicts_witness :
  exists rows row (assignment : list bool) result,
    generate_truth_table (BinOp "XOR" (Var "A") (Var "B")) ["A"; "B"]%string true
      = Ok rows
    /\ rows !! 2%nat = Some (RowDict row)
    /\ List.length assignment = List.length ["A"; "B"]%string
    /\ big_endian (map Z.b2z assignment) = Z.of_nat 2
    /\ (forall other : list bool,
          List.length other = List.length ["A"; "B"]%string ->
          big_endian (map Z.b2z other) = Z.of_nat 2 -> other = assignment)
    /\ (forall a : gmap string bool,
          (forall k var, ["A"; "B"]%string !! k = Some var ->
                         a !! var = assignment !! k) ->
          (forall var,
              var ∈ extract_logical_variables (BinOp "XOR" (Var "A") (Var "B")) ∅ ->
              var ∈ ["A"; "B"]%string) ->
          evaluate_tree (BinOp "XOR" (Var "A") (Var "B")) a = Ok result)
    /\ row !! "RESULT" = Some (result_val result)
    /\ dom row = list_to_set ["A"; "B"]%string ∪ {[ "RESULT" ]}
    /\ forall k var, ["A"; "B"]%string !! k = Some var -> var <> "RESULT" ->
         row !! var = Z.b2z <$> assignment !! k.
Proof.
  apply (rows_as_dicts (BinOp "XOR" (Var "A") (Var "B")) ["A"; "B"]%string 2).
  - apply (bool_decide_unpack _). vm_compute. reflexivity.
  - reflexivity.
  - simpl. lia.
Defined.

Example row_as_dict_xor :
  generate_truth_table (BinOp "XOR" (Var "A") (Var "B")) ["A"; "B"]%string true
  = Ok [RowDict {[ "A" := 0; "B" := 0; "RESULT" := 0 ]};
        RowDict {[ "A" := 0; "B" := 1; "RESULT" := 1 ]};
        RowDict {[ "A" := 1; "B" := 0; "RESULT" := 1 ]};
        RowDict {[ "A" := 1; "B" := 1; "RESULT" := 0 ]}].
Proof. vm_compute. reflexivity. Qed.

(** ** generate_truth_table with print_table, and main *)

Lemma print_loop_table ast variables return_as_dict combinations :
  forall table printed,
  snd (print_loop ast variables return_as_dict combinations table printed)
    = table_loop ast variables return_as_dict combinations table.
Proof.
  induction combinations as [|c combinations IH]; intros table printed;
    [reflexivity|].
  cbn [print_loop table_loop]. unfold table_row.
  destruct (evaluate_tree ast _) as [result| |]; try reflexivity.
  cbn [bind]. destruct return_as_dict; cbn [bind]; apply IH.
Qed.

Lemma join_snoc sep (l : list string) x :
  l <> [] -> join sep (l ++ [x]) = join sep l +:+ sep +:+ x.
Proof.
  induction l as [|y l IH]; [congruence|]. intros _.
  destruct l as [|z l]; [reflexivity|].
  change (join sep ((y :: z :: l) ++ [x]))
    with (y +:+ sep +:+ join sep ((z :: l) ++ [x])).
  rewrite IH by discriminate.
  change (join sep (y :: z :: l)) with (y +:+ sep +:+ join sep (z :: l)).
  by rewrite !append_assoc.
Qed.

Lemma print_loop_lines ast variables combinations : forall table printed,
  Forall (fun c => c <> []) combinations ->
  (forall c, In c combinations ->
     exists result, evaluate_tree ast (dict_of_zip int_bool variables c) = Ok result) ->
  exists rows,
    print_loop ast variables false combinations table printed
      = (printed ++ map row_text rows, Ok (table ++ rows))
    /\ List.length rows = List.length combinations.
Proof.
  induction combinations as [|c combinations IH]; intros table printed Hne Hev.
  - exists []. simpl. by rewrite !app_nil_r.
  - inversion Hne as [|? ? Hc Hne']; subst.
    destruct (Hev c (or_introl eq_refl)) as [result Hresult].
    cbn [print_loop]. rewrite Hresult.
    destruct (IH (table ++ [RowList (c ++ [if truthy result then 1 else 0])])
                 (printed ++ [join " | " (map str_int c) +:+ " | "
                              +:+ str_int (if truthy result then 1 else 0)]) Hne')
      as (rows & Hloop & Hlen).
    { intros c' Hc'. apply Hev. by right. }
    exists (RowList (c ++ [if truthy result then 1 else 0]) :: rows).
    rewrite Hloop. split; [|simpl; by rewrite Hlen].
    rewrite <- !app_assoc. cbn [map app row_text].
    rewrite map_app. cbn [map].
    rewrite join_snoc; [reflexivity|]. by destruct c.
Qed.

Lemma combinations_nonempty n :
  n <> 0%nat -> Forall (fun c => c <> []) (generate_truth_combinations n).
Proof.
  intros Hn. apply List.Forall_forall. intros c Hc Hnil.
  apply list_elem_of_In, list_elem_of_lookup in Hc as [i Hi].
  apply lookup_combinations in Hi as [_ ->].
  apply (f_equal (@List.length Z)) in Hnil.
  unfold combination_of in Hnil. rewrite length_rev, length_bits_of in Hnil.
  simpl in Hnil. lia.
Qed.

Lemma printed_table_rows ast variables :
  variables <> [] ->
  well_formed ast = true ->
  exists rows,
    generate_truth_table_print ast variables false
      = (table_header variables ++ map row_text rows, Ok rows)
    /\ List.length rows = (2 ^ List.length variables)%nat.
Proof.
  intros Hne Hwf. unfold generate_truth_table_print. cbv zeta.
  destruct (print_loop_lines ast variables
              (generate_truth_combinations (List.length variables)) []
              (table_header variables)) as (rows & Hloop & Hlen).
  - apply combinations_nonempty. by destruct variables.
  - intros c _.
    destruct (evaluate_standard ast (dict_of_zip int_bool variables c) Hwf)
      as (v & Hv & _). eauto.
  - exists rows. split; [exact Hloop|].
    by rewrite Hlen, combinations_eq, length_map, length_range.
Qed.

(** X18.  What is printed is what is returned: for a well-formed tree and
    at least one variable, the lines written are the header, the dashes and
    then, for each row of the returned table in order, its values in
    decimal separated by [" | "]. *)
Theorem printed_lines_are_the_rows ast variables :
  variables <> [] ->
  well_formed ast = true ->
  exists rows,
    generate_truth_table_print ast variables false
      = (table_header variables ++ map row_text rows, Ok rows)
    /\ List.length rows = (2 ^ List.length variables)%nat.
Proof. apply printed_table_rows. Qed.

Lemma printed_lines_are_the_rows_witness :
  exists rows,
    generate_truth_table_print (BinOp "AND" (Var "A") (Var "B")) ["A"; "B"]%string false
      = (table_header ["A"; "B"]%string ++ map row_text rows, Ok rows)
    /\ List.length rows = (2 ^ List.length ["A"; "B"]%string)%nat.
Proof.
  apply (printed_lines_are_the_rows (BinOp "AND" (Var "A") (Var "B"))
           ["A"; "B"]%string); [discriminate|reflexivity].
Defined.

Example printed_table_and :
  generate_truth_table_print (BinOp "AND" (Var "A") (Var "B")) ["A"; "B"]%string false
  = ( [ "A | B | RESULT"; "-----------------";
        "0 | 0 | 0"; "0 | 1 | 0"; "1 | 0 | 0"; "1 | 1 | 1" ]%string,
      Ok [RowList [0; 0; 0]; RowList [0; 1; 0]; RowList [1; 0; 0]; RowList [1; 1; 1]] ).
Proof. vm_compute. reflexivity. Qed.

#[global] Instance string_le_total : Total string_le.
Proof. intros x y. apply String.leb_total. Qed.

Lemma sorted_spec (X : gset string) :
  Sorted string_le (sorted X)
  /\ NoDup (sorted X)
  /\ (forall x, x ∈ sorted X <-> x ∈ X)
  /\ List.length (sorted X) = size X.
Proof.
  unfold sorted.
  pose proof (merge_sort_Permutation string_le (elements X)) as Hperm.
  split; [apply Sorted_merge_sort, _|]. split; [|split].
  - rewrite Hperm. apply NoDup_elements.
  - intros x. rewrite Hperm. apply elem_of_elements.
  - by rewrite Hperm.
Qed.

Lemma sorted_nil (X : gset string) : sorted X = [] <-> X = ∅.
Proof.
  destruct (sorted_spec X) as (_ & _ & Hin & _). split.
  - intros H. apply set_eq. intros x. rewrite <- Hin, H. set_solver.
  - intros ->. reflexivity.
Qed.

(** X19.  [main] never shows the value of an expression without
    variables: when the tree has no variable, the turn writes a single
    line, the error line of a [TypeError].  Either ["Result: " + result]
    fails because [result] is not a string, or the evaluation has already
    failed on an infix NOT. *)
Theorem constant_expression_prints_TypeError expression tokens ast rest :
  tokenize_expression expression = Ok tokens ->
  build_ast tokens = Ok (ast, rest) ->
  extract_logical_variables ast ∅ = ∅ ->
  try_block expression = [ErrLine TypeError].
Proof.
  intros Hlex Hparse Hvars. unfold try_block. rewrite Hlex, Hparse, Hvars.
  change (sorted ∅) with (@nil string). cbv zeta iota.
  pose proof (parser_output_shapes _ _ _ _ Hlex Hparse) as Hs.
  destruct (evaluate_shapes ast ∅ Hs) as [[_ [v ->]]|[_ ->]]; reflexivity.
Qed.

Lemma constant_expression_prints_TypeError_witness :
  try_block "TRUE AND NOT FALSE" = [ErrLine TypeError].
Proof.
  apply (constant_expression_prints_TypeError "TRUE AND NOT FALSE"
           [Token2 OPERAND (NBool true); operator_token "AND" (2, Binary op_and);
            operator_token "NOT" (1, Unary op_not); Token2 OPERAND (NBool false)]
           (BinOp "AND" (Const true) (Not (Const false))) []); reflexivity.
Defined.

Lemma print_loop_raises ast variables c combinations table printed e :
  evaluate_tree ast (dict_of_zip int_bool variables c) = Raise e ->
  print_loop ast variables false (c :: combinations) table printed
    = (printed, Raise e).
Proof. intros H. cbn [print_loop]. by rewrite H. Qed.

Lemma try_block_prints_table expression tokens ast rest :
  tokenize_expression expression = Ok tokens ->
  build_ast tokens = Ok (ast, rest) ->
  no_infix_not ast = true ->
  extract_logical_variables ast ∅ <> ∅ ->
  let variables := sorted (extract_logical_variables ast ∅) in
  exists rows,
    try_block expression
      = map Line (table_header variables ++ map row_text rows)
    /\ generate_truth_table ast variables false = Ok rows
    /\ List.length rows = (2 ^ size (extract_logical_variables ast ∅))%nat
    /\ Sorted string_le variables
    /\ NoDup variables
    /\ forall x, x ∈ variables <-> x ∈ extract_logical_variables ast ∅.
Proof.
  intros Hlex Hparse Hnot Hvars variables.
  destruct (sorted_spec (extract_logical_variables ast ∅))
    as (Hsorted & Hnd & Hin & Hlen).
  fold variables in Hsorted, Hnd, Hin, Hlen.
  assert (Hne : variables <> []).
  { intros H. by apply sorted_nil in H. }
  assert (Hwf : well_formed ast = true).
  { apply shapes_well_formed; [by eapply parser_output_shapes|assumption]. }
  destruct (printed_table_rows ast variables Hne Hwf) as (rows & Hprint & Hrows).
  exists rows.
  split; [|split; [|split; [|split; [exact Hsorted|split; [exact Hnd|exact Hin]]]]].
  - unfold try_block. rewrite Hlex, Hparse. fold variables.
    destruct variables as [|v vs] eqn:E; [congruence|].
    rewrite <- E in *. rewrite Hprint. by rewrite app_nil_r.
  - pose proof (print_loop_table ast variables false
                  (generate_truth_combinations (List.length variables))
                  [] (table_header variables)) as Ht.
    change (snd (generate_truth_table_print ast variables false)
            = generate_truth_table ast variables false) in Ht.
    rewrite Hprint in Ht. symmetry. exact Ht.
  - by rewrite Hrows, Hlen.
Qed.

(** X20.  A line that, stripped and upper-cased, is none of the commands
    Q, X, QUIT, EXIT, H and HELP, and whose tree has variables and no infix
    NOT: the turn of [main] goes on, and writes the header, the dashes and
    one line per row of the table, [2^n] rows for [n] distinct variables,
    and no error line; the variables of the header are those of the tree,
    each once, in ascending order. *)
Theorem main_prints_the_table line tokens ast rest :
  let expression := upper (strip line) in
  let variables := sorted (extract_logical_variables ast ∅) in
  expression ∉ ["Q"; "X"; "QUIT"; "EXIT"; "H"; "HELP"]%string ->
  tokenize_expression expression = Ok tokens ->
  build_ast tokens = Ok (ast, rest) ->
  no_infix_not ast = true ->
  extract_logical_variables ast ∅ <> ∅ ->
  exists rows,
    main_turn line
      = Some (map Line (table_header variables ++ map row_text rows))
    /\ generate_truth_table ast variables false = Ok rows
    /\ List.length rows = (2 ^ size (extract_logical_variables ast ∅))%nat
    /\ Sorted string_le variables
    /\ NoDup variables
    /\ forall x, x ∈ variables <-> x ∈ extract_logical_variables ast ∅.
Proof.
  intros expression variables Hcommand Hlex Hparse Hnot Hvars.
  destruct (try_block_prints_table expression tokens ast rest
              Hlex Hparse Hnot Hvars) as (rows & Hprint & Hrest).
  exists rows. split; [|exact Hrest].
  unfold main_turn. fold expression.
  rewrite !bool_decide_eq_false_2; [by rewrite Hprint| |];
    intros Hin; apply Hcommand; set_solver.
Qed.

Lemma main_prints_the_table_witness :
  exists rows,
    main_turn "  b or a "
      = Some (map Line (table_header
                          (sorted (extract_logical_variables
                                     (BinOp "OR" (Var "B") (Var "A")) ∅))
                        ++ map row_text rows))
    /\ generate_truth_table
         (BinOp "OR" (Var "B") (Var "A"))
         (sorted (extract_logical_variables (BinOp "OR" (Var "B") (Var "A")) ∅))
         false = Ok rows
    /\ List.length rows
       = (2 ^ size (extract_logical_variables (BinOp "OR" (Var "B") (Var "A")) ∅))%nat
    /\ Sorted string_le
         (sorted (extract_logical_variables (BinOp "OR" (Var "B") (Var "A")) ∅))
    /\ NoDup (sorted (extract_logical_variables (BinOp "OR" (Var "B") (Var "A")) ∅))
    /\ forall x,
         x ∈ sorted (extract_logical_variables (BinOp "OR" (Var "B") (Var "A")) ∅)
         <-> x ∈ extract_logical_variables (BinOp "OR" (Var "B") (Var "A")) ∅.
Proof.
  apply (main_prints_the_table "  b or a "
           [var_token "B"; operator_token "OR" (4, Binary op_or); var_token "A"]
           (BinOp "OR" (Var "B") (Var "A")) []); try reflexivity.
  - apply (bool_decide_unpack _). vm_compute. reflexivity.
  - cbn [extract_logical_variables BinOp Var Node2 Leaf]. set_solver.
Defined.

Example main_turn_commands :
  main_turn " q " = None
  /\ main_turn "x" = None
  /\ main_turn "help" = Some [Line "NOT; AND; OR; XOR; IMP; IFF;"]
  /\ main_turn "b or a"
     = Some (map Line [ "A | B | RESULT"; "-----------------";
                        "0 | 0 | 0"; "0 | 1 | 1"; "1 | 0 | 1"; "1 | 1 | 1" ]%string).
Proof. repeat split; vm_compute; reflexivity. Qed.

(** X21.  For an expression with variables in which some NOT stands
    between two operands, a turn of [main] writes the header and the dashes
    of the table and then the error line of a [TypeError]: the failure of
    the first row comes after the first two [print] calls. *)
Theorem main_prints_header_then_error expression tokens ast rest :
  tokenize_expression expression = Ok tokens ->
  build_ast tokens = Ok (ast, rest) ->
  no_infix_not ast = false ->
  extract_logical_variables ast ∅ <> ∅ ->
  try_block expression
    = map Line (table_header (sorted (extract_logical_variables ast ∅)))
      ++ [ErrLine TypeError].
Proof.
  intros Hlex Hparse Hnot Hvars.
  pose proof (parser_output_shapes _ _ _ _ Hlex Hparse) as Hs.
  unfold try_block. rewrite Hlex, Hparse. cbv zeta.
  destruct (sorted (extract_logical_variables ast ∅)) as [|v vs] eqn:E;
    [by apply sorted_nil in E|].
  unfold generate_truth_table_print. cbv zeta. rewrite combinations_eq.
  assert (Hpow : exists m, (2 ^ List.length (v :: vs))%nat = S m).
  { pose proof (Nat.pow_nonzero 2 (List.length (v :: vs))).
    destruct (2 ^ List.length (v :: vs))%nat; [lia|eauto]. }
  destruct Hpow as [m ->]. rewrite range_S. cbn [map].
  rewrite (print_loop_raises _ _ _ _ _ _ TypeError); [reflexivity|].
  destruct (evaluate_shapes ast
              (dict_of_zip int_bool (v :: vs)
                           (combination_of (List.length (v :: vs)) 0)) Hs)
    as [[Hn _]|[_ H]]; [congruence|exact H].
Qed.

Lemma main_prints_header_then_error_witness :
  try_block "a not b"
    = map Line (table_header (sorted (extract_logical_variables
                                        (BinOp "NOT" (Var "A") (Var "B")) ∅)))
      ++ [ErrLine TypeError].
Proof.
  apply (main_prints_header_then_error "a not b"
           [var_token "A"; operator_token "NOT" (1, Unary op_not); var_token "B"]
           (BinOp "NOT" (Var "A") (Var "B")) []); try reflexivity.
  cbn [extract_logical_variables BinOp Var Node2 Leaf]. set_solver.
Defined.

Lemma lstrip_blank s : all_space s = true -> lstrip s = EmptyString.
Proof.
  induction s as [|c s IH]; [reflexivity|]. simpl. intros H.
  apply andb_prop in H as [-> H]. by apply IH.
Qed.

(** X22.  An empty line, or a line of white space only, is not a command:
    the turn goes on after writing the error line of the [IndexError]
    raised by [tokens.pop(0)]. *)
Theorem blank_line_prints_IndexError line :
  all_space line = true -> main_turn line = Some [ErrLine IndexError].
Proof.
  intros H. unfold main_turn, strip. by rewrite (lstrip_blank line H).
Qed.

Lemma blank_line_prints_IndexError_witness :
  main_turn "    " = Some [ErrLine IndexError].
Proof. apply blank_line_prints_IndexError. reflexivity. Defined.

(** ** tokenize_expression: texts side by side *)

(** X23.  Lexing is local at a non-letter: when [a] is empty or ends with a
    character that is not a letter, the tokens of [a b] are those of [a]
    followed by those of [b] (and an error of either is the error of the
    whole, the one of [a] first); a blank inserted at that place changes
    nothing. *)
Theorem lexing_side_by_side a b :
  ends_nonalpha a = true ->
  tokenize_expression (a +:+ b)
    = (do x <- tokenize_expression a; do y <- tokenize_expression b; Ok (x ++ y))
  /\ tokenize_expression (a +:+ " " +:+ b) = tokenize_expression (a +:+ b).
Proof.
  intros Ha.
  assert (Hsplit : forall c,
    tokenize_expression (a +:+ c)
    = (do x <- tokenize_expression a; do y <- tokenize_expression c; Ok (x ++ y))).
  { intros c. unfold tokenize_expression. cbv zeta. rewrite upper_append.
    rewrite tokenize_loop_split by (by rewrite ?ends_nonalpha_upper).
    rewrite (tokenize_loop_fuel _ (String.length (upper a)) (upper a))
      by (rewrite ?length_append; lia).
    destruct (tokenize_loop _ (upper a) []) as [x| |]; try reflexivity.
    cbn [bind]. rewrite tokenize_loop_acc.
    by rewrite (tokenize_loop_fuel _ (String.length (upper c)) (upper c))
      by (rewrite ?length_append; lia). }
  split; [apply Hsplit|].
  rewrite !Hsplit.
  assert (Hb : tokenize_expression (" " +:+ b) = tokenize_expression b).
  { unfold tokenize_expression. cbv zeta.
    change (upper (" " +:+ b)) with (String " " (upper b)).
    cbn [String.length]. by rewrite tokenize_loop_S. }
  by rewrite Hb.
Qed.

Lemma lexing_side_by_side_witness :
  tokenize_expression ("(a or b)" +:+ "and c")
    = (do x <- tokenize_expression "(a or b)";
       do y <- tokenize_expression "and c"; Ok (x ++ y))
  /\ tokenize_expression ("(a or b)" +:+ " " +:+ "and c")
     = tokenize_expression ("(a or b)" +:+ "and c").
Proof. apply lexing_side_by_side. reflexivity. Defined.

(** ** build_ast: two different binary operators *)

(** X24.  Between two left-associative operators the one with the larger
    precedence number takes the operand that stands between them:
    [a o1 b o2 c] with [p1 < p2] is [a o1 (b o2 c)], and [a o2 b o1 c] is
    [(a o2 b) o1 c]. *)
Theorem larger_precedence_number_takes_operand o1 o2 p1 p2 a b c :
  token_type o1 = OPERATOR -> precedence o1 = Some p1 ->
  is_left (associativity o1) = true ->
  token_type o2 = OPERATOR -> precedence o2 = Some p2 ->
  is_left (associativity o2) = true ->
  0 <= p1 < p2 ->
  token_type a = OPERAND -> token_type b = OPERAND -> token_type c = OPERAND ->
  build_ast [a; o1; b; o2; c]
    = Ok (Node2 (value o1) (Leaf (value a))
                (Node2 (value o2) (Leaf (value b)) (Leaf (value c))), [])
  /\ build_ast [a; o2; b; o1; c]
    = Ok (Node2 (value o1)
                (Node2 (value o2) (Leaf (value a)) (Leaf (value b)))
                (Leaf (value c)), []).
Proof.
  intros Ht1 Hp1 Hl1 Ht2 Hp2 Hl2 Hlt Ha Hb Hc.
  assert (G1 : (p1 >=? 0) = true) by lia.
  assert (G2 : (p2 >=? 0) = true) by lia.
  assert (G3 : (p2 >=? p1 + 1) = true) by lia.
  assert (G4 : (p1 >=? p2 + 1) = false) by lia.
  unfold build_ast. cbn [List.length Nat.mul Nat.add].
  split;
    repeat (rewrite ?parse_operator_S, ?parse_primary_S, ?parse_loop_S,
              ?Ht1, ?Ht2, ?Hp1, ?Hp2, ?Hl1, ?Hl2, ?Ha, ?Hb, ?Hc,
              ?G1, ?G2, ?G3, ?G4;
            cbn [TokenType_eqb]; cbv iota);
    reflexivity.
Qed.

Lemma larger_precedence_number_takes_operand_witness :
  build_ast [var_token "A"; operator_token "AND" (2, Binary op_and); var_token "B";
             operator_token "IFF" (6, Binary op_iff); var_token "C"]
    = Ok (BinOp "AND" (Var "A") (BinOp "IFF" (Var "B") (Var "C")), [])
  /\ build_ast [var_token "A"; operator_token "IFF" (6, Binary op_iff); var_token "B";
                operator_token "AND" (2, Binary op_and); var_token "C"]
    = Ok (BinOp "AND" (BinOp "IFF" (Var "A") (Var "B")) (Var "C"), []).
Proof.
  apply (larger_precedence_number_takes_operand
           (operator_token "AND" (2, Binary op_and))
           (operator_token "IFF" (6, Binary op_iff)) 2 6
           (var_token "A") (var_token "B") (var_token "C"));
    try reflexivity. lia.
Defined.
